(** * Money Manager: the ledger store, its projections and its summary

    A shallow embedding of [script.js]: the [Transaction] constructor, the
    [MoneyManager] store operations ([loadInitialData], [addTransaction],
    [updateTransaction], [deleteTransaction]), the filter-and-sort pipeline
    of [renderTransactions], the totals of [updateSummary] and
    [validateForm].

    The DOM is left out: a function that reads its inputs from form
    controls takes them as arguments, and one that writes text into the
    page returns the values it formats. *)

From Stdlib Require Import ZArith NArith List Bool Lia String Ascii.
From Stdlib Require Import Floats.SpecFloat.
From Stdlib Require Import Sorting.Permutation Sorting.Sorted.
From Stdlib Require Import DecimalPos.
Import ListNotations.

Local Open Scope Z_scope.

(** ** JavaScript strings

    A JavaScript string is a sequence of 16-bit code units.  Literals of
    the source are written [str "..."]. *)

Module JsString.

Definition code_unit := N.
Definition t := list code_unit.

Definition str (s : string) : t :=
  List.map N_of_ascii (list_ascii_of_string s).

(** [a === b] on two strings. *)
Fixpoint eqb (a b : t) : bool :=
  match a, b with
  | [], [] => true
  | x :: a', y :: b' => N.eqb x y && eqb a' b'
  | _, _ => false
  end.

(** Truthiness of a string: every string but the empty one. *)
Definition truthy (s : t) : bool :=
  match s with [] => false | _ :: _ => true end.

(** WhiteSpace and LineTerminator code points of ECMAScript, the set
    that [trim], [parseFloat] and [Number] strip. *)
Definition is_space (c : code_unit) : bool :=
  ((9 <=? c) && (c <=? 13) || (c =? 32) || (c =? 160) || (c =? 5760)
   || (8192 <=? c) && (c <=? 8202) || (c =? 8232) || (c =? 8233)
   || (c =? 8239) || (c =? 8287) || (c =? 12288) || (c =? 65279))%N.

Fixpoint trimStart (s : t) : t :=
  match s with
  | c :: s' => if is_space c then trimStart s' else s
  | [] => []
  end.

Definition trimEnd (s : t) : t := rev (trimStart (rev s)).

(** [String.prototype.trim]. *)
Definition trim (s : t) : t := trimEnd (trimStart s).

(** [p] is a prefix of [s]: the rest of [s] after it. *)
Fixpoint strip_prefix (p s : t) : option t :=
  match p, s with
  | [], _ => Some s
  | x :: p', y :: s' => if N.eqb x y then strip_prefix p' s' else None
  | _ :: _, [] => None
  end.

End JsString.

Abbreviation jsstring := JsString.t.
Abbreviation str := JsString.str.

(** ** JavaScript numbers

    A Number is an IEEE 754 binary64 value; the arithmetic is that of
    [SpecFloat] at precision 53 and maximal exponent 1024, rounding to
    nearest, ties to even. *)

Module Number.

Definition t := spec_float.

Definition prec := 53.
Definition emax := 1024.

Definition NaN : t := S754_nan.
Definition zero : t := S754_zero false.
Definition Infinity : t := S754_infinity false.

Definition add : t -> t -> t := SFadd prec emax.
Definition sub : t -> t -> t := SFsub prec emax.
Definition ltb : t -> t -> bool := SFltb.
Definition leb : t -> t -> bool := SFleb.

Definition is_nan (x : t) : bool :=
  match x with S754_nan => true | _ => false end.

(** The Number value for the integer [z]. *)
Definition of_Z (z : Z) : t := binary_normalize prec emax z 0 false.

(** The Number value for [m * 10 ^ e], [m] a natural number; [neg] is
    the sign.  The value is rounded to nearest whatever the number of
    digits of [m]; ECMAScript lets an engine cut [m] after its twentieth
    significant digit. *)
Definition of_decimal (neg : bool) (m : N) (e : Z) : t :=
  match m with
  | N0 => S754_zero neg
  | Npos p =>
      if 0 <=? e
      then binary_normalize prec emax
             (cond_Zopp neg (Zpos p * 10 ^ e)) 0 false
      else SFdiv prec emax (S754_finite neg p 0)
             (S754_finite false (Z.to_pos (10 ^ (- e))) 0)
  end.

(** Integers held in a Number.  [round_Z z] is the integer that the
    Number value for [z] denotes: [z] itself up to 53 significant bits,
    and beyond that the nearest integer with 53 significant bits, ties
    to the even one.  (Overflow to [Infinity], past [2 ^ 1024], is left
    out.) *)
Definition round_Z (z : Z) : Z :=
  let a := Z.abs z in
  let d := Z.log2 a + 1 in
  if d <=? prec then z
  else
    let sh := d - prec in
    let q := a / 2 ^ sh in
    let r := a mod 2 ^ sh in
    let half := 2 ^ (sh - 1) in
    let q' := if (half <? r) || ((r =? half) && Z.odd q) then q + 1 else q in
    Z.sgn z * (q' * 2 ^ sh).

(** [n + 1] on a Number that holds the integer [n], as in [nextId++]
    and [Math.max(...) + 1]. *)
Definition succ (n : Z) : Z := round_Z (n + 1).

(** [2 ^ 53]: up to it, in absolute value, every integer is a Number. *)
Definition exact_limit : Z := 2 ^ prec.
Arguments exact_limit : simpl never.

End Number.

Abbreviation number := Number.t.

(** ** Numeric literals in strings: [parseFloat] and [Number] *)

Module Literal.

Import JsString.

Definition is_digit (c : code_unit) : bool := ((48 <=? c) && (c <=? 57))%N.

(** The longest prefix of [s] made of characters that satisfy [p], and
    the rest. *)
Fixpoint span (p : code_unit -> bool) (s : t) : t * t :=
  match s with
  | c :: s' =>
      if p c then let '(ds, r) := span p s' in (c :: ds, r) else ([], s)
  | [] => ([], [])
  end.

(** The value of a digit in a base up to 16, for a character that is
    one. *)
Definition digit_value (c : code_unit) : N :=
  (if is_digit c then c - 48
   else if (97 <=? c) && (c <=? 102) then c - 87
   else c - 55)%N.

Definition value_in (base : N) (ds : t) : N :=
  fold_left (fun acc c => (acc * base + digit_value c)%N) ds 0%N.

(** StrUnsignedDecimalLiteral and StrDecimalLiteral of ECMAScript. *)
Inductive unsigned_literal :=
| UInfinity
| UDecimal (m : N) (e : Z).

(** ExponentPart at the head of [s]: the exponent and the rest, or no
    exponent and [s] itself when the indicator is not followed by
    digits. *)
Definition exponent_part (s : t) : Z * t :=
  match s with
  | c :: s1 =>
      if ((c =? 101) || (c =? 69))%N then
        let '(neg, s2) :=
          match s1 with
          | sg :: s2 =>
              if (sg =? 45)%N then (true, s2)
              else if (sg =? 43)%N then (false, s2)
              else (false, s1)
          | [] => (false, s1)
          end in
        let '(ds, r) := span is_digit s2 in
        match ds with
        | [] => (0, s)
        | _ :: _ => (cond_Zopp neg (Z.of_N (value_in 10 ds)), r)
        end
      else (0, s)
  | [] => (0, s)
  end.

(** The longest prefix of [s] that is a StrUnsignedDecimalLiteral, with
    the rest of [s]; [None] when no prefix is one. *)
Definition unsigned_prefix (s : t) : option (unsigned_literal * t) :=
  match strip_prefix (str "Infinity") s with
  | Some r => Some (UInfinity, r)
  | None =>
      let '(int_ds, r1) := span is_digit s in
      let '(frac_ds, r2) :=
        match r1 with
        | c :: r1' => if (c =? 46)%N then span is_digit r1' else ([], r1)
        | [] => ([], r1)
        end in
      match int_ds, frac_ds with
      | [], [] => None
      | _, _ =>
          let '(e, r3) := exponent_part r2 in
          Some (UDecimal (value_in 10 (int_ds ++ frac_ds))
                         (e - Z.of_nat (List.length frac_ds)), r3)
      end
  end.

Definition literal_value (neg : bool) (u : unsigned_literal) : number :=
  match u with
  | UInfinity => S754_infinity neg
  | UDecimal m e => Number.of_decimal neg m e
  end.

(** The longest prefix of [s] that is a StrDecimalLiteral: its value
    and the rest of [s]. *)
Definition decimal_prefix (s : t) : option (number * t) :=
  let '(neg, s1) :=
    match s with
    | c :: s' =>
        if (c =? 45)%N then (true, s')
        else if (c =? 43)%N then (false, s')
        else (false, s)
    | [] => (false, s)
    end in
  match unsigned_prefix s1 with
  | Some (u, r) => Some (literal_value neg u, r)
  | None => None
  end.

Definition is_hex_digit (c : code_unit) : bool :=
  (is_digit c || (97 <=? c) && (c <=? 102) || (65 <=? c) && (c <=? 70))%N.
Definition is_octal_digit (c : code_unit) : bool := ((48 <=? c) && (c <=? 55))%N.
Definition is_binary_digit (c : code_unit) : bool := ((c =? 48) || (c =? 49))%N.

(** NonDecimalIntegerLiteral: [0x], [0o] or [0b] and digits to the end
    of the string. *)
Definition non_decimal (s : t) : option number :=
  match s with
  | z :: k :: ds =>
      if (z =? 48)%N then
        let digits_of (p : code_unit -> bool) (base : N) :=
          match span p ds with
          | (_ :: _, []) => Some (Number.of_Z (Z.of_N (value_in base ds)))
          | _ => Some Number.NaN
          end in
        if ((k =? 120) || (k =? 88))%N then digits_of is_hex_digit 16%N
        else if ((k =? 111) || (k =? 79))%N then digits_of is_octal_digit 8%N
        else if ((k =? 98) || (k =? 66))%N then digits_of is_binary_digit 2%N
        else None
      else None
  | _ => None
  end.

End Literal.

(** [amount] reaches the constructor as a string (a form field) or as a
    number (a stored record). *)
Inductive numberOrString :=
| OfNumber (x : number)
| OfString (s : jsstring).

(** [parseFloat(string)]: the value of the longest prefix of the string,
    leading white space skipped, that is a decimal literal, and [NaN] when
    there is none.  A number argument is first converted to a string;
    [Number::toString] yields a literal that reads back as the same number,
    but for [-0], which prints as [0]. *)
Definition parseFloat (v : numberOrString) : number :=
  match v with
  | OfString s =>
      match Literal.decimal_prefix (JsString.trimStart s) with
      | Some (x, _) => x
      | None => Number.NaN
      end
  | OfNumber (S754_zero _) => Number.zero
  | OfNumber x => x
  end.

(** [Number(string)], the conversion that [isNaN] applies to its
    argument: the whole string, white space trimmed at both ends, must be
    a numeric literal; the empty string is [0]. *)
Definition ToNumber (s : jsstring) : number :=
  match JsString.trim s with
  | [] => Number.zero
  | s' =>
      match Literal.non_decimal s' with
      | Some x => x
      | None =>
          match Literal.decimal_prefix s' with
          | Some (x, []) => x
          | _ => Number.NaN
          end
      end
  end.

Definition isNaN (s : jsstring) : bool := Number.is_nan (ToNumber s).

(** [parseInt(string)] with no radix: leading white space and a sign are
    skipped, [0x] or [0X] announces hexadecimal digits, and the value is
    that of the longest run of digits that follows; [None] is [NaN], for
    no digit at all.  (Past twenty digits ECMAScript lets an engine
    approximate; the model rounds the exact integer.) *)
Definition parseInt (s : jsstring) : option Z :=
  let s0 := JsString.trimStart s in
  let '(neg, s1) :=
    match s0 with
    | c :: s' =>
        if (c =? 45)%N then (true, s')
        else if (c =? 43)%N then (false, s')
        else (false, s0)
    | [] => (false, s0)
    end in
  let '(radix, is_digit_R, s2) :=
    match s1 with
    | z :: k :: s' =>
        if ((z =? 48) && ((k =? 120) || (k =? 88)))%N
        then (16%N, Literal.is_hex_digit, s')
        else (10%N, Literal.is_digit, s1)
    | _ => (10%N, Literal.is_digit, s1)
    end in
  match Literal.span is_digit_R s2 with
  | ([], _) => None
  | (ds, _) =>
      Some (Number.round_Z (cond_Zopp neg (Z.of_N (Literal.value_in radix ds))))
  end.

(** The characters of a decimal numeral. *)
Fixpoint digit_codes (d : Decimal.uint) : jsstring :=
  match d with
  | Decimal.Nil => []
  | Decimal.D0 d => 48%N :: digit_codes d
  | Decimal.D1 d => 49%N :: digit_codes d
  | Decimal.D2 d => 50%N :: digit_codes d
  | Decimal.D3 d => 51%N :: digit_codes d
  | Decimal.D4 d => 52%N :: digit_codes d
  | Decimal.D5 d => 53%N :: digit_codes d
  | Decimal.D6 d => 54%N :: digit_codes d
  | Decimal.D7 d => 55%N :: digit_codes d
  | Decimal.D8 d => 56%N :: digit_codes d
  | Decimal.D9 d => 57%N :: digit_codes d
  end.

(** [String(n)] on a Number that holds the integer [n], up to [2 ^ 53]
    in absolute value: its decimal digits, after a minus sign when it is
    negative.  (Larger Numbers print fewer digits than they have, or an
    exponent.) *)
Definition ToString_int (n : Z) : jsstring :=
  match n with
  | Z0 => [48%N]
  | Zpos p => digit_codes (Pos.to_uint p)
  | Zneg p => 45%N :: digit_codes (Pos.to_uint p)
  end.

(** ** Dates

    [new Date(string)] holds a time value, the milliseconds since the
    epoch in UTC, or [NaN] for a string that is no date.  The date input
    of the form yields the empty string or [YYYY-MM-DD]; the model reads
    the date-only forms [YYYY], [YYYY-MM] and [YYYY-MM-DD] of the
    ECMAScript date-time string format, which denote midnight UTC, and
    every other string as an invalid date. *)

Module JsDate.

Import JsString.

Definition msPerDay : Z := 86400000.

Definition isLeapYear (y : Z) : bool :=
  ((y mod 4 =? 0) && negb (y mod 100 =? 0)) || (y mod 400 =? 0).

(** DayFromYear of ECMAScript: the day number of 1 January of [y]. *)
Definition DayFromYear (y : Z) : Z :=
  365 * (y - 1970) + (y - 1969) / 4 - (y - 1901) / 100 + (y - 1601) / 400.

Definition DaysInMonth (y m : Z) : Z :=
  if m =? 2 then (if isLeapYear y then 29 else 28)
  else if (m =? 4) || (m =? 6) || (m =? 9) || (m =? 11) then 30
  else 31.

(** Days of the year [y] before its month [m]. *)
Fixpoint daysBefore (y : Z) (m : nat) : Z :=
  match m with
  | O => 0
  | S m' => daysBefore y m' + DaysInMonth y (Z.of_nat m)
  end.

(** The time value of midnight UTC on the day [y]-[m]-[d]; [None] is
    [NaN], for a month or a day out of range. *)
Definition MakeDate (y m d : Z) : option Z :=
  if (1 <=? m) && (m <=? 12) && (1 <=? d) && (d <=? DaysInMonth y m)
  then Some ((DayFromYear y + daysBefore y (Z.to_nat (m - 1)) + (d - 1))
             * msPerDay)
  else None.

(** [n] digits at the head of [s]: their value and the rest. *)
Fixpoint digits (n : nat) (acc : Z) (s : t) : option (Z * t) :=
  match n with
  | O => Some (acc, s)
  | S n' =>
      match s with
      | c :: s' =>
          if Literal.is_digit c
          then digits n' (acc * 10 + Z.of_N (c - 48)) s'
          else None
      | [] => None
      end
  end.

(** A hyphen and two digits at the head of [s]. *)
Definition hyphen_field (s : t) : option (Z * t) :=
  match s with
  | c :: s' => if (c =? 45)%N then digits 2 0 s' else None
  | [] => None
  end.

(** [Date.parse]. *)
Definition parse (s : t) : option Z :=
  match digits 4 0 s with
  | Some (y, []) => MakeDate y 1 1
  | Some (y, r1) =>
      match hyphen_field r1 with
      | Some (m, []) => MakeDate y m 1
      | Some (m, r2) =>
          match hyphen_field r2 with
          | Some (d, []) => MakeDate y m d
          | _ => None
          end
      | None => None
      end
  | None => None
  end.

(** [a > b] on a date and a time value; a comparison with an invalid
    date is false. *)
Definition gtb (a : option Z) (b : Z) : bool :=
  match a with
  | Some ta => b <? ta
  | None => false
  end.

(** [a - b] on two dates, a Number. *)
Definition diff (a b : option Z) : number :=
  match a, b with
  | Some ta, Some tb => Number.of_Z (ta - tb)
  | _, _ => Number.NaN
  end.

End JsDate.

(** ** The data model *)

(** A field read with [?.value] is a string or [undefined]. *)
Definition optString_eqb (a : option jsstring) (b : jsstring) : bool :=
  match a with
  | Some s => JsString.eqb s b
  | None => false
  end.

Definition optString_truthy (a : option jsstring) : bool :=
  match a with
  | Some s => JsString.truthy s
  | None => false
  end.

(** [class Transaction].  The identifier is a Number that holds an
    integer; [category] is whatever the caller passed, a string or
    [undefined]. *)
Record Transaction := {
  id : Z;
  amount : number;
  date : jsstring;
  category : option jsstring;
  subCategory : jsstring;
  description : jsstring
}.

(** [new Transaction(id, amount, date, category, subCategory, description)]. *)
Definition new_Transaction (id : Z) (amount : numberOrString) (date : jsstring)
    (category : option jsstring) (subCategory description : jsstring)
  : Transaction :=
  {| id := id;
     amount := parseFloat amount;
     date := date;
     category := category;
     subCategory := subCategory;
     description := JsString.trim description |}.

(** The object that the submit handler reads from the form controls. *)
Record FormData := {
  fd_id : jsstring;
  fd_amount : jsstring;
  fd_date : jsstring;
  fd_category : option jsstring;
  fd_subCategory : jsstring;
  fd_description : jsstring
}.

(** A record as the storage returns it. *)
Record StoredRecord := {
  st_id : Z;
  st_amount : numberOrString;
  st_date : jsstring;
  st_category : option jsstring;
  st_subCategory : jsstring;
  st_description : jsstring
}.

(** The constructor applied to the fields of a form object, as
    [addTransaction] and [updateTransaction] call it. *)
Definition of_form (i : Z) (f : FormData) : Transaction :=
  new_Transaction i (OfString (fd_amount f)) (fd_date f) (fd_category f)
    (fd_subCategory f) (fd_description f).

(** [t => new Transaction(t.id, t.amount, ...)] of [loadInitialData]. *)
Definition rehydrate (t : StoredRecord) : Transaction :=
  new_Transaction (st_id t) (st_amount t) (st_date t) (st_category t)
    (st_subCategory t) (st_description t).

(** ** The store *)

Record MoneyManager := {
  transactions : list Transaction;
  nextId : Z
}.

(** What an operation asks of its collaborators, in order. *)
Inductive effect :=
| saveTransactions (snapshot : list Transaction)
| renderTransactions
| updateSummary.

(** [new MoneyManager()], before the stored data arrive. *)
Definition initial : MoneyManager := {| transactions := []; nextId := 1 |}.

(** How [await localforage.getItem(DB_KEY)] ends: it throws, or it
    returns [null] or the stored array. *)
Inductive getItem_result :=
| Rejected
| Resolved (stored : option (list StoredRecord)).

(** [Math.max(...ids)] on a list that is not empty. *)
Definition Math_max (ids : list Z) : Z :=
  match ids with
  | [] => 0
  | i :: ids' => fold_left Z.max ids' i
  end.

Definition loadInitialData (r : getItem_result) (s : MoneyManager)
  : MoneyManager * list effect :=
  (match r with
   | Resolved (Some stored) =>
       let ts := List.map rehydrate stored in
       {| transactions := ts;
          nextId := match ts with
                    | [] => 1
                    | _ :: _ => Number.succ (Math_max (List.map id ts))
                    end |}
   | Resolved None | Rejected => s
   end,
   [renderTransactions; updateSummary]).

Definition addTransaction (formData : FormData) (s : MoneyManager)
  : MoneyManager * list effect :=
  let newTransaction := of_form (nextId s) formData in
  let ts := transactions s ++ [newTransaction] in
  ({| transactions := ts; nextId := Number.succ (nextId s) |},
   [saveTransactions ts; renderTransactions; updateSummary]).

(** [transactions.findIndex(t => t.id === id)]; [None] is [-1]. *)
Fixpoint findIndex (i : Z) (ts : list Transaction) : option nat :=
  match ts with
  | [] => None
  | t :: ts' =>
      if id t =? i then Some O
      else match findIndex i ts' with
           | Some n => Some (S n)
           | None => None
           end
  end.

(** [transactions.find(t => t.id === id)], the look-up of the edit
    button. *)
Fixpoint find (i : Z) (ts : list Transaction) : option Transaction :=
  match ts with
  | [] => None
  | t :: ts' => if id t =? i then Some t else find i ts'
  end.

(** [transactions[index] = x].  An index equal to the length extends the
    array by [x]; a larger one would leave holes, and is never passed:
    the index comes from [findIndex]. *)
Fixpoint set_at (n : nat) (x : Transaction) (ts : list Transaction)
  : list Transaction :=
  match n, ts with
  | O, _ :: ts' => x :: ts'
  | S n', t :: ts' => t :: set_at n' x ts'
  | O, [] => [x]
  | S _, [] => []
  end.

Definition updateTransaction (i : Z) (updatedData : FormData) (s : MoneyManager)
  : MoneyManager * list effect :=
  match findIndex i (transactions s) with
  | Some index =>
      let ts := set_at index (of_form i updatedData) (transactions s) in
      ({| transactions := ts; nextId := nextId s |},
       [saveTransactions ts; renderTransactions; updateSummary])
  | None => (s, [])
  end.

(** [confirmed] is the answer of [window.confirm]. *)
Definition deleteTransaction (confirmed : bool) (i : Z) (s : MoneyManager)
  : MoneyManager * list effect :=
  if confirmed then
    let ts := filter (fun t => negb (id t =? i)) (transactions s) in
    ({| transactions := ts; nextId := nextId s |},
     [saveTransactions ts; renderTransactions; updateSummary])
  else (s, []).

(** *** Sequences of operations *)

Inductive op :=
| Add (formData : FormData)
| Update (i : Z) (updatedData : FormData)
| Delete (confirmed : bool) (i : Z).

Definition step (o : op) (s : MoneyManager) : MoneyManager :=
  match o with
  | Add f => fst (addTransaction f s)
  | Update i f => fst (updateTransaction i f s)
  | Delete c i => fst (deleteTransaction c i s)
  end.

Fixpoint run (ops : list op) (s : MoneyManager) : MoneyManager :=
  match ops with
  | [] => s
  | o :: ops' => run ops' (step o s)
  end.

(** The states that a run goes through, the first and the last included. *)
Fixpoint trace (ops : list op) (s : MoneyManager) : list MoneyManager :=
  s :: match ops with
       | [] => []
       | o :: ops' => trace ops' (step o s)
       end.

(** The identifiers that the [Add]s of a run issue. *)
Fixpoint issued (ops : list op) (s : MoneyManager) : list Z :=
  match ops with
  | [] => []
  | Add f :: ops' => nextId s :: issued ops' (step (Add f) s)
  | o :: ops' => issued ops' (step o s)
  end.

Fixpoint adds (ops : list op) : Z :=
  match ops with
  | [] => 0
  | Add _ :: ops' => 1 + adds ops'
  | _ :: ops' => adds ops'
  end.

(** The life of a store: the stored data arrive, and operations run. *)
Inductive event :=
| Loaded (r : getItem_result)
| Op (o : op).

Definition handle (e : event) (s : MoneyManager) : MoneyManager :=
  match e with
  | Loaded r => fst (loadInitialData r s)
  | Op o => step o s
  end.

Definition run_events (es : list event) (s : MoneyManager) : MoneyManager :=
  fold_left (fun s e => handle e s) es s.

(** The amounts handed to the store by the events of a run. *)
Definition supplied (e : event) : list numberOrString :=
  match e with
  | Loaded (Resolved (Some stored)) => List.map st_amount stored
  | Loaded _ => []
  | Op (Add f) => [OfString (fd_amount f)]
  | Op (Update _ f) => [OfString (fd_amount f)]
  | Op (Delete _ _) => []
  end.

(** ** The projection of [renderTransactions] *)

(** The comparison function handed to [sort]. *)
Definition compareFn (sortOption : jsstring) (a b : Transaction) : number :=
  if JsString.eqb sortOption (str "date-asc")
  then JsDate.diff (JsDate.parse (date a)) (JsDate.parse (date b))
  else if JsString.eqb sortOption (str "date-desc")
  then JsDate.diff (JsDate.parse (date b)) (JsDate.parse (date a))
  else if JsString.eqb sortOption (str "amount-asc")
  then Number.sub (amount a) (amount b)
  else if JsString.eqb sortOption (str "amount-desc")
  then Number.sub (amount b) (amount a)
  else Number.zero.

(** [Array.prototype.sort].  ECMAScript leaves the algorithm open and
    asks for a stable one; this is the stable insertion sort.  SortCompare
    turns a [NaN] of the comparison function into [0]. *)
Section Sort.

Variable comparefn : Transaction -> Transaction -> number.

Definition SortCompare (x y : Transaction) : number :=
  let v := comparefn x y in
  if Number.is_nan v then Number.zero else v.

Fixpoint insert (x : Transaction) (sorted : list Transaction)
  : list Transaction :=
  match sorted with
  | [] => [x]
  | y :: sorted' =>
      if Number.ltb Number.zero (SortCompare x y)
      then y :: insert x sorted'
      else x :: sorted
  end.

Fixpoint sort (ts : list Transaction) : list Transaction :=
  match ts with
  | [] => []
  | t :: ts' => insert t (sort ts')
  end.

End Sort.

(** The rows that [renderTransactions] shows, from the collection and
    the values of the three controls. *)
Definition filteredAndSorted (ts : list Transaction)
    (categoryFilter dateFilter sortOption : jsstring) : list Transaction :=
  let l0 := ts in
  let l1 :=
    if negb (JsString.eqb categoryFilter (str "all"))
    then filter (fun t => optString_eqb (category t) categoryFilter) l0
    else l0 in
  let l2 :=
    if JsString.truthy dateFilter
    then filter (fun t => JsString.eqb (date t) dateFilter) l1
    else l1 in
  sort (compareFn sortOption) l2.

(** ** The totals of [updateSummary] *)

Definition isIncome (t : Transaction) : bool :=
  optString_eqb (category t) (str "income").

Definition isExpense (t : Transaction) : bool :=
  optString_eqb (category t) (str "expense").

Definition totalIncome (ts : list Transaction) : number :=
  fold_left (fun sum t => Number.add sum (amount t)) (filter isIncome ts)
    Number.zero.

Definition totalExpenses (ts : list Transaction) : number :=
  fold_left (fun sum t => Number.add sum (amount t)) (filter isExpense ts)
    Number.zero.

Definition netBalance (ts : list Transaction) : number :=
  Number.sub (totalIncome ts) (totalExpenses ts).

(** ** [validateForm] *)

(** The elements that [showError] writes to: [amount-error], [date-error],
    [category-error] and [sub-category-error]. *)
Inductive error_element :=
| amount_error
| date_error
| category_error
| sub_category_error.

(** The four conditions of [validateForm]. *)
Definition amount_rejected (formData : FormData) : bool :=
  isNaN (fd_amount formData)
  || Number.leb (parseFloat (OfString (fd_amount formData))) Number.zero.

(** [today] is the time value of [new Date()] after [setHours(0,0,0,0)],
    midnight in the local time zone. *)
Definition date_rejected (today : Z) (formData : FormData) : bool :=
  negb (JsString.truthy (fd_date formData))
  || JsDate.gtb (JsDate.parse (fd_date formData)) today.

Definition category_rejected (formData : FormData) : bool :=
  negb (optString_truthy (fd_category formData)).

Definition subCategory_rejected (formData : FormData) : bool :=
  negb (JsString.truthy (fd_subCategory formData)).

(** One [if] of [validateForm]: on [failed], show the error and clear
    [isValid]. *)
Definition check (failed : bool) (e : error_element)
    (st : bool * list error_element) : bool * list error_element :=
  if failed then (false, snd st ++ [e]) else st.

(** [validateForm]: the flag it returns and the errors it shows, in
    order. *)
Definition validateForm (today : Z) (formData : FormData)
  : bool * list error_element :=
  let st := (true, []) in
  let st := check (amount_rejected formData) amount_error st in
  let st := check (date_rejected today formData) date_error st in
  let st := check (category_rejected formData) category_error st in
  let st := check (subCategory_rejected formData) sub_category_error st in
  st.

(** ** The handlers of [setupEventListeners] *)

(** The listener of the form's [submit] event, on the object it reads
    from the controls: a valid form updates the record named by the
    hidden field [transaction-id], or adds a record when that field is
    empty.  An identifier that reads as [NaN] equals that of no record,
    and [updateTransaction] then does nothing. *)
Definition submit (today : Z) (formData : FormData) (s : MoneyManager)
  : MoneyManager * list effect :=
  if fst (validateForm today formData) then
    if JsString.truthy (fd_id formData) then
      match parseInt (fd_id formData) with
      | Some i => updateTransaction i formData s
      | None => (s, [])
      end
    else addTransaction formData s
  else (s, []).

(** The [data-id] that [renderTransactions] writes on the two buttons of
    the row of [t], and the value that [showModal] gives the hidden field
    [transaction-id]: the identifier as a string, and the empty string
    when the modal opens for a new record. *)
Definition row_data_id (t : Transaction) : jsstring := ToString_int (id t).

Definition showModal_id (transaction : option Transaction) : jsstring :=
  match transaction with
  | Some t => ToString_int (id t)
  | None => []
  end.

(** What a click in the table body hits. *)
Inductive target :=
| edit_btn (data_id : jsstring)
| delete_btn (data_id : jsstring)
| elsewhere.

(** The record that a click on an edit button hands to [showModal]:
    [transactions.find(t => t.id === parseInt(target.dataset.id))];
    [None] is [undefined], on which the modal opens for a new record. *)
Definition transactionToEdit (data_id : jsstring) (s : MoneyManager)
  : option Transaction :=
  match parseInt data_id with
  | Some i => find i (transactions s)
  | None => None
  end.

(** The listener of the table body.  On a delete button it calls
    [deleteTransaction(parseInt(target.dataset.id))]; an identifier that
    reads as [NaN] differs from that of every record, so that the filter
    keeps them all.  A click on an edit button only opens the modal. *)
Definition click (confirmed : bool) (tg : target) (s : MoneyManager)
  : MoneyManager * list effect :=
  match tg with
  | delete_btn data_id =>
      match parseInt data_id with
      | Some i => deleteTransaction confirmed i s
      | None =>
          if confirmed then
            ({| transactions := transactions s; nextId := nextId s |},
             [saveTransactions (transactions s); renderTransactions;
              updateSummary])
          else (s, [])
      end
  | edit_btn _ | elsewhere => (s, [])
  end.

(** What the user does to a page. *)
Inductive ui_event :=
| Submit (today : Z) (formData : FormData)
| Click (confirmed : bool) (tg : target).

Definition ui_step (e : ui_event) (s : MoneyManager) : MoneyManager :=
  match e with
  | Submit today f => fst (submit today f s)
  | Click c tg => fst (click c tg s)
  end.

Definition ui_run (es : list ui_event) (s : MoneyManager) : MoneyManager :=
  fold_left (fun s e => ui_step e s) es s.

(** The submits of a run. *)
Fixpoint submits (es : list ui_event) : Z :=
  match es with
  | [] => 0
  | Submit _ _ :: es' => 1 + submits es'
  | Click _ _ :: es' => submits es'
  end.

(** ** Properties stated on the model *)

Definition ids (s : MoneyManager) : list Z := List.map id (transactions s).

(** The invariant of the store: identifiers are unique and below the
    counter. *)
Definition well_formed (s : MoneyManager) : Prop :=
  NoDup (ids s) /\ (forall i, In i (ids s) -> i < nextId s).

(** A string with no white space at either end. *)
Definition no_outer_space (s : jsstring) : Prop :=
  (forall c r, s = c :: r -> JsString.is_space c = false)
  /\ (forall r c, s = r ++ [c] -> JsString.is_space c = false).

(** What the constructor guarantees of a record, given the amounts that
    were on offer. *)
Definition normalised (offered : list numberOrString) (t : Transaction) : Prop :=
  (exists a, In a offered /\ amount t = parseFloat a)
  /\ no_outer_space (description t).

(** A record as [saveTransactions] hands it to the storage: its six
    fields. *)
Definition as_stored (t : Transaction) : StoredRecord :=
  {| st_id := id t;
     st_amount := OfNumber (amount t);
     st_date := date t;
     st_category := category t;
     st_subCategory := subCategory t;
     st_description := description t |}.

(** A Number above 0, [Infinity] included. *)
Definition above_zero (x : number) : Prop := Number.ltb Number.zero x = true.

(** What a record that went through [validateForm] is like: category,
    sub-category and date are not empty, and the amount is above 0, or
    [NaN]. *)
Definition validated (t : Transaction) : Prop :=
  optString_truthy (category t) = true
  /\ JsString.truthy (subCategory t) = true
  /\ JsString.truthy (date t) = true
  /\ (above_zero (amount t) \/ amount t = Number.NaN).

(** The time value of the date of a record. *)
Definition timeValue (t : Transaction) : option Z := JsDate.parse (date t).

(** The time value of a record whose date is valid. *)
Definition date_key (t : Transaction) : Z :=
  match timeValue t with
  | Some v => v
  | None => 0
  end.

(** On the records of [l] the comparison function orders by [key]: it
    answers above 0 exactly when the first record has the larger key. *)
Definition orders_by (comparefn : Transaction -> Transaction -> number)
    (key : Transaction -> Z) (l : list Transaction) : Prop :=
  forall a b, In a l -> In b l ->
    Number.ltb Number.zero (SortCompare comparefn a b) = (key b <? key a).

(** An operation with what it asks of its collaborators. *)
Definition perform (o : op) (s : MoneyManager) : MoneyManager * list effect :=
  match o with
  | Add f => addTransaction f s
  | Update i f => updateTransaction i f s
  | Delete c i => deleteTransaction c i s
  end.

(** What a call leaves behind is persisted: it changed nothing and asked
    for nothing, or it asked for a save of the collection as it now is,
    and then for both views to be drawn again. *)
Definition persisted (s : MoneyManager) (r : MoneyManager * list effect) : Prop :=
  r = (s, [])
  \/ snd r = [saveTransactions (transactions (fst r)); renderTransactions;
              updateSummary].

(** [w] reads the amounts of [ts] as whole numbers, none below 0. *)
Definition whole_amounts (w : Transaction -> Z) (ts : list Transaction) : Prop :=
  forall t, In t ts -> 0 <= w t /\ amount t = Number.of_Z (w t).

Definition Zsum (l : list Z) : Z := fold_right Z.add 0 l.

(** The time value of [today] after [setHours(0,0,0,0)], when the local
    time is [offset] milliseconds ahead of UTC all day long: the local
    midnight before [now]. *)
Definition local_midnight (offset now : Z) : Z :=
  (now + offset) / JsDate.msPerDay * JsDate.msPerDay - offset.

(** The number of the local day of [now]. *)
Definition local_day (offset now : Z) : Z := (now + offset) / JsDate.msPerDay.

(** A record that comes back from the storage as it went in: its
    description has no white space at either end and its amount is not
    [-0]. *)
Definition reloadable (t : Transaction) : Prop :=
  no_outer_space (description t) /\ amount t <> S754_zero true.

(** A Number that is positive and finite. *)
Definition positive_finite (x : number) : bool :=
  match x with
  | S754_finite false _ _ => true
  | _ => false
  end.

(** Two collections with no record in common. *)
Definition disjoint (A B : list Transaction) : Prop :=
  forall t, In t A -> ~ In t B.

(** Whether the category of [t] is [c]. *)
Definition category_dec (t : Transaction) (c : jsstring) :
  {category t = Some c} + {category t <> Some c}.
Proof. repeat decide equality. Defined.

(** The sum of [amount] over the records of [ts] of category [c], added
    one record after the other onto [acc]. *)
Fixpoint sum_amounts (c : jsstring) (acc : number) (ts : list Transaction)
  : number :=
  match ts with
  | [] => acc
  | t :: ts' =>
      sum_amounts c
        (if category_dec t c then Number.add acc (amount t) else acc) ts'
  end.

(** The categories and dates that the two filters let through. *)
Definition passes_category (categoryFilter : jsstring) (t : Transaction) : Prop :=
  categoryFilter = str "all" \/ category t = Some categoryFilter.

Definition passes_date (dateFilter : jsstring) (t : Transaction) : Prop :=
  dateFilter = [] \/ date t = dateFilter.

(** A sort option that the [switch] of the comparison function knows. *)
Definition recognised (sortOption : jsstring) : Prop :=
  In sortOption
     [str "date-asc"; str "date-desc"; str "amount-asc"; str "amount-desc"].

(** Whether the category of [t] is [c], as a truth value. *)
Definition in_category (c : jsstring) (t : Transaction) : bool :=
  if category_dec t c then true else false.

(** The sum of the whole numbers [w] over the records of [ts] of
    category [c], in the integers. *)
Definition category_sum (w : Transaction -> Z) (c : jsstring)
    (ts : list Transaction) : Z :=
  Zsum (List.map w (filter (in_category c) ts)).

(** The sum of [amount] over the records of [ts] of category [c] in
    IEEE 754 binary64 arithmetic, with the addition of the Standard
    Library's specification of floating-point numbers: each record of the
    category is added onto [acc], the result rounded to nearest, ties to
    even. *)
Fixpoint binary64_sum (c : jsstring) (acc : spec_float) (ts : list Transaction)
  : spec_float :=
  match ts with
  | [] => acc
  | t :: ts' =>
      binary64_sum c
        (if category_dec t c then SFadd 53 1024 acc (amount t) else acc) ts'
  end.

(** The whole number that a Number is, when it is one: a finite value
    [m * 2 ^ e] is a whole number when [e] is not negative or [2 ^ (- e)]
    divides [m]. *)
Definition integer_value (x : number) : option Z :=
  match x with
  | S754_zero _ => Some 0
  | S754_finite s m e =>
      if 0 <=? e then Some (cond_Zopp s (Zpos m * 2 ^ e))
      else if Zpos m mod 2 ^ (- e) =? 0
           then Some (cond_Zopp s (Zpos m / 2 ^ (- e)))
           else None
  | S754_infinity _ | S754_nan => None
  end.

(** The summary of [ts] is, exactly, an income of [i] and an expense of
    [e], with the net balance their difference. *)
Definition summary_is (ts : list Transaction) (i e : Z) : Prop :=
  integer_value (totalIncome ts) = Some i
  /\ integer_value (totalExpenses ts) = Some e
  /\ integer_value (netBalance ts) = Some (i - e).

(** ** Sample data *)

Module Sample.

Definition form (a d : string) (c : option jsstring) (sc de : string)
  : FormData :=
  {| fd_id := [];
     fd_amount := str a;
     fd_date := str d;
     fd_category := c;
     fd_subCategory := str sc;
     fd_description := str de |}.

Definition income : option jsstring := Some (str "income").
Definition expense : option jsstring := Some (str "expense").

Definition salary : FormData := form "1000" "2024-01-01" income "salary" " pay ".
Definition groceries : FormData := form "200" "2024-01-02" expense "groceries" "".
Definition rent : FormData := form "750.5" "2024-01-03" expense "rent" "flat".

(** The two records of the example of the specification. *)
Definition ledger : list Transaction := [of_form 1 salary; of_form 2 groceries].

Definition store : MoneyManager := {| transactions := ledger; nextId := 3 |}.

(** Midnight UTC of 1 January 2024 and of 3 November 2026. *)
Definition jan_1_2024 : Z := 1704067200000.
Definition nov_3_2026 : Z := 1793664000000.

(** Midnight of 1 January 2024 in a zone five and a half hours ahead of
    UTC. *)
Definition jan_1_2024_ist : Z := jan_1_2024 - 19800000.

(** The form of the example of the specification, and the same form
    with the amount left empty. *)
Definition negative_amount : FormData := form "-5" "2024-01-01" expense "rent" "".
Definition empty_amount : FormData := form "" "2024-01-01" expense "rent" "".

(** A form that fails on all four fields, and a valid one dated
    1 January 2024. *)
Definition blank : FormData := form "abc" "" None "" "".
Definition new_year : FormData := form "5" "2024-01-01" expense "rent" "".

(** A store whose counter has reached [2 ^ 53]. *)
Definition saturated : MoneyManager :=
  {| transactions := []; nextId := Number.exact_limit |}.

(** Three incomes of 0.1, 0.2 and 0.3. *)
Definition dime : Transaction := of_form 1 (form "0.1" "2024-01-01" income "gift" "").
Definition two_dimes : Transaction := of_form 2 (form "0.2" "2024-01-01" income "gift" "").
Definition three_dimes : Transaction := of_form 3 (form "0.3" "2024-01-01" income "gift" "").

Definition first_dime : list Transaction := [dime].
Definition other_dimes : list Transaction := [two_dimes; three_dimes].

(** An add, an update and a delete on [store]. *)
Definition session : list op :=
  [Add rent; Update 1 groceries; Delete true 2].

(** Two adds on [saturated]. *)
Definition two_adds : list op := [Add salary; Add groceries].

(** The form [f] as submitted from the modal that [showModal] opened on
    [t]. *)
Definition editing (t : Transaction) (f : FormData) : FormData :=
  {| fd_id := showModal_id (Some t);
     fd_amount := fd_amount f;
     fd_date := fd_date f;
     fd_category := fd_category f;
     fd_subCategory := fd_subCategory f;
     fd_description := fd_description f |}.

(** A new record, the deletion of the first row and an edit of the
    second, on 3 November 2026. *)
Definition page_session : list ui_event :=
  [Submit nov_3_2026 rent;
   Click true (delete_btn (row_data_id (of_form 1 salary)));
   Submit nov_3_2026 (editing (of_form 2 groceries) rent)].

(** The amounts of the sample ledger, in whole rupees. *)
Definition rupees (t : Transaction) : Z := if id t =? 1 then 1000 else 200.

(** Noon UTC of 1 January 2024, and five and a half hours. *)
Definition noon_jan_1_2024 : Z := jan_1_2024 + 43200000.
Definition ist : Z := 19800000.

(** The sample ledger as the storage holds it. *)
Definition stored_ledger : list StoredRecord := List.map as_stored ledger.

(** The store that one add leaves of [saturated]: it holds a record
    whose identifier is the counter itself. *)
Definition holding_next : MoneyManager := run [Add salary] saturated.

End Sample.

(** ** Strings *)

Lemma JsString_eqb_eq (a b : jsstring) : JsString.eqb a b = true <-> a = b.
Proof.
  revert b; induction a as [|x a IH]; intros [|y b]; simpl; split;
    try discriminate; try reflexivity.
  - intros H. apply andb_true_iff in H as [Hx Hab].
    apply N.eqb_eq in Hx. apply IH in Hab. congruence.
  - intros H. injection H as -> ->. rewrite N.eqb_refl. simpl. now apply IH.
Qed.

Lemma JsString_eqb_refl (a : jsstring) : JsString.eqb a a = true.
Proof. now apply JsString_eqb_eq. Qed.

Lemma JsString_eqb_neq (a b : jsstring) : JsString.eqb a b = false <-> a <> b.
Proof.
  split.
  - intros H E. apply JsString_eqb_eq in E. congruence.
  - intros H. destruct (JsString.eqb a b) eqn:E; [|reflexivity].
    apply JsString_eqb_eq in E. contradiction.
Qed.

Lemma optString_eqb_eq (a : option jsstring) (b : jsstring) :
  optString_eqb a b = true <-> a = Some b.
Proof.
  destruct a as [s|]; simpl.
  - rewrite JsString_eqb_eq. split; congruence.
  - split; discriminate.
Qed.

Lemma truthy_false (s : jsstring) : JsString.truthy s = false <-> s = [].
Proof. destruct s; simpl; split; congruence. Qed.

(** [trimStart] drops a run of white space and nothing else. *)
Lemma trimStart_split (s : jsstring) :
  exists w, s = w ++ JsString.trimStart s /\ Forall (fun c => JsString.is_space c = true) w.
Proof.
  induction s as [|c s [w [E F]]]; simpl.
  - exists []. split; [reflexivity | constructor].
  - destruct (JsString.is_space c) eqn:Hc.
    + exists (c :: w). split; [simpl; congruence | now constructor].
    + exists []. split; [reflexivity | constructor].
Qed.

Lemma trimStart_head (s : jsstring) c r :
  JsString.trimStart s = c :: r -> JsString.is_space c = false.
Proof.
  induction s as [|x s IH]; simpl; [discriminate|].
  destruct (JsString.is_space x) eqn:Hx; [exact IH|].
  intros H. injection H as -> _. exact Hx.
Qed.

Lemma trimEnd_split (s : jsstring) :
  exists w, s = JsString.trimEnd s ++ w.
Proof.
  unfold JsString.trimEnd.
  destruct (trimStart_split (rev s)) as [w [E _]].
  exists (rev w). rewrite <- rev_app_distr, <- E. now rewrite rev_involutive.
Qed.

Lemma trimEnd_last (s : jsstring) r c :
  JsString.trimEnd s = r ++ [c] -> JsString.is_space c = false.
Proof.
  unfold JsString.trimEnd. intros H.
  apply (f_equal (@rev _)) in H. rewrite rev_involutive, rev_app_distr in H.
  simpl in H. now apply trimStart_head in H.
Qed.

(** The result of [trim] has white space at neither end. *)
Lemma trim_no_outer_space (s : jsstring) : no_outer_space (JsString.trim s).
Proof.
  unfold JsString.trim. split.
  - intros c r H.
    destruct (trimEnd_split (JsString.trimStart s)) as [w E].
    rewrite H in E. simpl in E. now apply trimStart_head in E.
  - intros r c H. now apply trimEnd_last in H.
Qed.

(** ** Integers in a Number *)

(** Up to [2 ^ 53] in absolute value an integer is its own Number. *)
Lemma round_Z_safe (z : Z) :
  - Number.exact_limit <= z <= Number.exact_limit -> Number.round_Z z = z.
Proof.
  unfold Number.exact_limit, Number.prec. intros H.
  destruct (Z.eq_dec (Z.abs z) (2 ^ 53)) as [E|NE].
  - destruct (Z.abs_eq_or_opp z) as [A|A]; rewrite A in E.
    + subst z. reflexivity.
    + assert (z = - 2 ^ 53) as -> by lia. reflexivity.
  - unfold Number.round_Z, Number.prec.
    assert (Hlt : Z.abs z < 2 ^ 53) by lia.
    assert (Hd : Z.log2 (Z.abs z) + 1 <= 53).
    { destruct (Z.eq_dec (Z.abs z) 0) as [Z0|NZ].
      - rewrite Z0. simpl. lia.
      - assert (0 < Z.abs z) by lia.
        apply Z.log2_lt_pow2 in Hlt; lia. }
    apply Z.leb_le in Hd. now rewrite Hd.
Qed.

Lemma succ_safe (n : Z) :
  - Number.exact_limit <= n < Number.exact_limit -> Number.succ n = n + 1.
Proof. intros H. unfold Number.succ. apply round_Z_safe. lia. Qed.

(** At [2 ^ 53] the increment is lost. *)
Lemma succ_saturates : Number.succ Number.exact_limit = Number.exact_limit.
Proof. reflexivity. Qed.

(** The same, on the binary64 values. *)
Lemma succ_saturates_binary64 :
  Number.add (Number.of_Z Number.exact_limit) (Number.of_Z 1)
  = Number.of_Z Number.exact_limit.
Proof. reflexivity. Qed.

(** [round_Z] agrees with the binary64 rounding of [SpecFloat] around
    [2 ^ 53] and [2 ^ 54], where the spacing of the Numbers grows to 2 and
    to 4. *)
Lemma round_Z_binary64 :
  Forall (fun z => Number.of_Z (Number.round_Z z) = Number.of_Z z
                   /\ Number.round_Z (Number.round_Z z) = Number.round_Z z)
    [2 ^ 53 - 1; 2 ^ 53; 2 ^ 53 + 1; 2 ^ 53 + 2; 2 ^ 53 + 3;
     - (2 ^ 53 + 1); - (2 ^ 53 + 3);
     2 ^ 54 + 1; 2 ^ 54 + 2; 2 ^ 54 + 3; 2 ^ 54 + 5; 2 ^ 54 + 6].
Proof. repeat constructor. Qed.

(** ** The store: look-up and replacement *)

Lemma findIndex_None (i : Z) (ts : list Transaction) :
  findIndex i ts = None <-> ~ In i (List.map id ts).
Proof.
  induction ts as [|t ts IH]; simpl.
  - split; [intros _ [] | reflexivity].
  - destruct (Z.eqb_spec (id t) i) as [E|NE].
    + split; [discriminate | intros H; exfalso; apply H; now left].
    + destruct (findIndex i ts) as [n|].
      * split; [discriminate|]. intros H. exfalso.
        assert (~ In i (List.map id ts)) as H' by tauto.
        apply IH in H'. discriminate.
      * split; [|reflexivity]. intros _ [E|H]; [contradiction|].
        now apply IH in H.
Qed.

(** [findIndex] finds the first record with the identifier, and
    [set_at] replaces that record and no other. *)
Lemma findIndex_Some (i : Z) (ts : list Transaction) (n : nat) :
  findIndex i ts = Some n ->
  exists l1 t l2,
    ts = l1 ++ t :: l2 /\ id t = i /\ List.length l1 = n
    /\ ~ In i (List.map id l1)
    /\ forall x, set_at n x ts = l1 ++ x :: l2.
Proof.
  revert n; induction ts as [|t ts IH]; simpl; intros n H; [discriminate|].
  destruct (Z.eqb_spec (id t) i) as [E|NE].
  - injection H as <-. exists [], t, ts. simpl. tauto.
  - destruct (findIndex i ts) as [m|] eqn:F; [|discriminate].
    injection H as <-.
    destruct (IH m eq_refl) as (l1 & u & l2 & -> & Hu & Hl & Hn & Hs).
    exists (t :: l1), u, l2. simpl.
    split; [reflexivity|]. split; [exact Hu|]. split; [now rewrite Hl|]. split.
    + intros [E|HI]; [contradiction | now apply Hn].
    + intros x. now rewrite Hs.
Qed.

Lemma find_app_fresh (i : Z) (l1 l2 : list Transaction) :
  ~ In i (List.map id l1) -> find i (l1 ++ l2) = find i l2.
Proof.
  induction l1 as [|t l1 IH]; simpl; intros H; [reflexivity|].
  destruct (Z.eqb_spec (id t) i) as [E|NE]; [tauto|].
  apply IH. tauto.
Qed.

Lemma find_head (i : Z) (t : Transaction) (l : list Transaction) :
  id t = i -> find i (t :: l) = Some t.
Proof. intros <-. simpl. now rewrite Z.eqb_refl. Qed.

Lemma filter_fresh (i : Z) (l : list Transaction) :
  ~ In i (List.map id l) -> filter (fun t => negb (id t =? i)) l = l.
Proof.
  induction l as [|t l IH]; simpl; intros H; [reflexivity|].
  destruct (Z.eqb_spec (id t) i) as [E|NE]; [tauto|].
  simpl. f_equal. apply IH. tauto.
Qed.

(** ** The store: what each operation does to identifiers and counter *)

Lemma ids_add (f : FormData) (s : MoneyManager) :
  ids (step (Add f) s) = ids s ++ [nextId s].
Proof. unfold ids. simpl. now rewrite map_app. Qed.

Lemma ids_update (i : Z) (f : FormData) (s : MoneyManager) :
  ids (step (Update i f) s) = ids s.
Proof.
  unfold ids, step, updateTransaction.
  destruct (findIndex i (transactions s)) as [n|] eqn:F; simpl; [|reflexivity].
  destruct (findIndex_Some _ _ _ F) as (l1 & t & l2 & E & Ht & _ & _ & Hs).
  rewrite Hs, E, !map_app. simpl. now rewrite Ht.
Qed.

Lemma ids_delete (c : bool) (i : Z) (s : MoneyManager) :
  ids (step (Delete c i) s)
  = if c then filter (fun j => negb (j =? i)) (ids s) else ids s.
Proof.
  unfold ids, step, deleteTransaction. destruct c; simpl; [|reflexivity].
  induction (transactions s) as [|t ts IH]; simpl; [reflexivity|].
  destruct (id t =? i); simpl; now rewrite IH.
Qed.

Lemma nextId_step (o : op) (s : MoneyManager) :
  nextId (step o s)
  = match o with Add _ => Number.succ (nextId s) | _ => nextId s end.
Proof.
  destruct o as [f|i f|c i]; simpl; try reflexivity.
  - unfold updateTransaction. now destruct (findIndex i (transactions s)).
  - now destruct c.
Qed.

Lemma ids_step_incl (o : op) (s : MoneyManager) (i : Z) :
  In i (ids (step o s)) -> In i (ids s) \/ i = nextId s.
Proof.
  destruct o as [f|j f|c j].
  - rewrite ids_add, in_app_iff. simpl. intuition.
  - rewrite ids_update. now left.
  - rewrite ids_delete. destruct c; [|now left].
    intros H. apply filter_In in H. now left.
Qed.

(** One step in the safe range keeps the invariant. *)
Lemma well_formed_step (o : op) (s : MoneyManager) :
  - Number.exact_limit <= nextId s < Number.exact_limit \/ adds [o] = 0 ->
  well_formed s -> well_formed (step o s).
Proof.
  intros Hr [Hnd Hlt]. unfold well_formed. destruct o as [f|j f|c j].
  - destruct Hr as [Hr|Hr]; [|simpl in Hr; lia].
    rewrite ids_add, nextId_step, succ_safe by exact Hr. split.
    + apply NoDup_app; [exact Hnd | repeat constructor; intros [] |].
      intros x Hx [<-|[]]. apply Hlt in Hx. lia.
    + intros i Hi. apply in_app_iff in Hi as [Hi|[<-|[]]]; [|lia].
      apply Hlt in Hi. lia.
  - rewrite ids_update, nextId_step. now split.
  - rewrite ids_delete, nextId_step. destruct c; [|now split]. split.
    + now apply NoDup_filter.
    + intros i Hi. apply filter_In in Hi. now apply Hlt.
Qed.

Lemma run_app (ops1 ops2 : list op) (s : MoneyManager) :
  run (ops1 ++ ops2) s = run ops2 (run ops1 s).
Proof. revert s; induction ops1 as [|o ops1 IH]; intros s; simpl; auto. Qed.

Lemma adds_nonneg (ops : list op) : 0 <= adds ops.
Proof. induction ops as [|[]]; cbn [adds]; lia. Qed.

Lemma adds_cons (o : op) (ops : list op) : adds (o :: ops) = adds [o] + adds ops.
Proof. destruct o; cbn [adds]; lia. Qed.

Lemma nextId_step_safe (o : op) (s : MoneyManager) :
  - Number.exact_limit <= nextId s ->
  nextId s + adds [o] <= Number.exact_limit ->
  nextId (step o s) = nextId s + adds [o].
Proof.
  intros Hlo Hhi. rewrite nextId_step.
  destruct o; cbn [adds] in *; [rewrite succ_safe|..]; lia.
Qed.

(** In the safe range the counter counts the [Add]s. *)
Lemma nextId_run (ops : list op) (s : MoneyManager) :
  - Number.exact_limit <= nextId s ->
  nextId s + adds ops <= Number.exact_limit ->
  nextId (run ops s) = nextId s + adds ops.
Proof.
  revert s; induction ops as [|o ops IH]; intros s Hlo Hhi.
  - simpl. lia.
  - rewrite adds_cons in *.
    pose proof (adds_nonneg ops). pose proof (adds_nonneg [o]).
    assert (E : nextId (step o s) = nextId s + adds [o])
      by (apply nextId_step_safe; lia).
    simpl run. rewrite IH; lia.
Qed.

Lemma well_formed_run (ops : list op) (s : MoneyManager) :
  - Number.exact_limit <= nextId s ->
  nextId s + adds ops <= Number.exact_limit ->
  well_formed s -> well_formed (run ops s).
Proof.
  revert s; induction ops as [|o ops IH]; intros s Hlo Hhi Hwf;
    [exact Hwf|].
  rewrite adds_cons in Hhi.
  pose proof (adds_nonneg ops). pose proof (adds_nonneg [o]).
  assert (E : nextId (step o s) = nextId s + adds [o])
    by (apply nextId_step_safe; lia).
  simpl run. apply IH; try lia.
  apply well_formed_step; [|exact Hwf].
  destruct (Z.eq_dec (adds [o]) 0); [now right | left; lia].
Qed.

(** Whatever a run holds at some point stays below its last counter. *)
Lemma trace_below (ops : list op) (s : MoneyManager) :
  - Number.exact_limit <= nextId s ->
  nextId s + adds ops <= Number.exact_limit ->
  well_formed s ->
  forall st, In st (trace ops s) ->
  forall i, In i (ids st) -> i < nextId (run ops s).
Proof.
  revert s; induction ops as [|o ops IH]; intros s Hlo Hhi Hwf st Hst i Hi.
  - destruct Hst as [<-|[]]. now apply Hwf.
  - pose proof (nextId_run (o :: ops) s Hlo Hhi) as Hlast.
    rewrite adds_cons in Hhi, Hlast.
    pose proof (adds_nonneg ops). pose proof (adds_nonneg [o]).
    assert (E : nextId (step o s) = nextId s + adds [o])
      by (apply nextId_step_safe; lia).
    destruct Hst as [<-|Hst].
    + apply Hwf in Hi. lia.
    + simpl run. apply (IH (step o s)) with (st := st); trivial; try lia.
      apply well_formed_step; [|exact Hwf].
      destruct (Z.eq_dec (adds [o]) 0); [now right | left; lia].
Qed.

Lemma issued_below (ops : list op) (s : MoneyManager) :
  - Number.exact_limit <= nextId s ->
  nextId s + adds ops <= Number.exact_limit ->
  forall i, In i (issued ops s) -> nextId s <= i <= nextId (run ops s) - 1.
Proof.
  revert s; induction ops as [|o ops IH]; intros s Hlo Hhi i Hi;
    [destruct Hi|].
  pose proof (nextId_run (o :: ops) s Hlo Hhi) as Hlast.
  rewrite adds_cons in Hhi, Hlast.
  pose proof (adds_nonneg ops). pose proof (adds_nonneg [o]).
  assert (E : nextId (step o s) = nextId s + adds [o])
    by (apply nextId_step_safe; lia).
  assert (Hrec : In i (issued ops (step o s)) ->
                 nextId s <= i <= nextId (run (o :: ops) s) - 1).
  { intros H'. apply IH in H'; simpl run; lia. }
  destruct o as [f|j f|c j]; simpl in Hi.
  - destruct Hi as [<-|Hi]; [cbn [adds] in Hlast; lia | auto].
  - auto.
  - auto.
Qed.

(** C1, as the code has it: a sequence of add, update and delete that
    starts from a store with unique identifiers below [nextId], and whose
    counter stays within the integers that a Number counts exactly (from
    [- 2 ^ 53] to [2 ^ 53]), ends in a store with unique identifiers;
    [nextId] is then above every identifier that any state of the run
    held, and every identifier that an add issued is at most
    [nextId - 1]. *)
Theorem ids_unique_below_nextId (ops : list op) (s : MoneyManager) :
  well_formed s ->
  - Number.exact_limit <= nextId s ->
  nextId s + adds ops <= Number.exact_limit ->
  NoDup (ids (run ops s))
  /\ (forall st, In st (trace ops s) ->
      forall i, In i (ids st) -> i < nextId (run ops s))
  /\ (forall i, In i (issued ops s) -> i <= nextId (run ops s) - 1).
Proof.
  intros Hwf Hlo Hhi. split; [|split].
  - now apply well_formed_run.
  - now apply trace_below.
  - intros i Hi. now apply issued_below in Hi.
Qed.

Lemma ids_unique_below_nextId_witness :
  NoDup (ids (run Sample.session Sample.store))
  /\ (forall st, In st (trace Sample.session Sample.store) ->
      forall i, In i (ids st) -> i < nextId (run Sample.session Sample.store))
  /\ (forall i, In i (issued Sample.session Sample.store) ->
      i <= nextId (run Sample.session Sample.store) - 1).
Proof.
  apply ids_unique_below_nextId.
  - split.
    + repeat constructor; simpl; intuition discriminate.
    + simpl. intros i [<-|[<-|[]]]; reflexivity.
  - discriminate.
  - discriminate.
Defined.

(** C1 as the specification states it fails: two adds on a store whose
    counter is [2 ^ 53] issue the same identifier twice, and that
    identifier is not below the counter. *)
Lemma ids_repeat_at_2_53 :
  well_formed Sample.saturated
  /\ ids (run Sample.two_adds Sample.saturated)
     = [Number.exact_limit; Number.exact_limit]
  /\ ~ NoDup (ids (run Sample.two_adds Sample.saturated))
  /\ ~ (forall i, In i (ids (run Sample.two_adds Sample.saturated)) ->
        i < nextId (run Sample.two_adds Sample.saturated)).
Proof.
  split; [|split; [|split]].
  - split; [constructor | intros i []].
  - reflexivity.
  - intros H. inversion H as [|x l Hn _]. apply Hn. now left.
  - intros H. specialize (H Number.exact_limit (or_introl eq_refl)).
    revert H. apply Z.lt_irrefl.
Qed.

(** ** Add, update, delete *)

(** On a store that holds no record with the identifier of its counter,
    an add and an update of the identifier it issued leave the old
    collection followed by the constructor's record for the second
    form. *)
Lemma add_then_update_store (s : MoneyManager) (F1 F2 : FormData) :
  ~ In (nextId s) (ids s) ->
  fst (updateTransaction (nextId s) F2 (fst (addTransaction F1 s)))
  = {| transactions := transactions s ++ [of_form (nextId s) F2];
       nextId := Number.succ (nextId s) |}.
Proof.
  intros Hfresh. unfold updateTransaction. simpl.
  destruct (findIndex (nextId s) (transactions s ++ [of_form (nextId s) F1]))
    as [k|] eqn:F.
  - destruct (findIndex_Some _ _ _ F) as (l1 & t & l2 & E & Ht & _ & Hn & Hs).
    simpl. rewrite Hs. f_equal.
    destruct l2 as [|u l2].
    + apply app_inj_tail in E as [-> _]. reflexivity.
    + exfalso. apply Hfresh. unfold ids.
      change (l1 ++ t :: u :: l2) with (l1 ++ t :: (u :: l2)) in E.
      destruct (exists_last (l := u :: l2)) as (l2' & z & E2); [discriminate|].
      rewrite E2 in E.
      replace (l1 ++ t :: l2' ++ [z]) with ((l1 ++ t :: l2') ++ [z]) in E
        by (rewrite <- app_assoc; reflexivity).
      apply app_inj_tail in E as [-> _].
      rewrite map_app. apply in_or_app. right. simpl. now left.
  - exfalso. apply findIndex_None in F. apply F.
    rewrite map_app. apply in_or_app. right. now left.
Qed.

(** C2, on the stores where it holds: when the store holds no record
    with the identifier [n] of its counter, [add(F1)], which issues [n],
    followed by [update(n, F2)] leaves the old collection followed by one
    record, whose fields are: [id] is [n], [amount] is [parseFloat] of the
    amount of [F2], [date], [category] and [subCategory] are those of
    [F2], and [description] is that of [F2] trimmed.  Nothing of [F1] is
    left; a look-up of [n] finds this record, and every record of the
    collection with identifier [n] is this record. *)
Theorem add_then_update_replaces (s : MoneyManager) (F1 F2 : FormData) :
  ~ In (nextId s) (ids s) ->
  let n := nextId s in
  let r := {| id := n;
              amount := parseFloat (OfString (fd_amount F2));
              date := fd_date F2;
              category := fd_category F2;
              subCategory := fd_subCategory F2;
              description := JsString.trim (fd_description F2) |} in
  let s2 := fst (updateTransaction n F2 (fst (addTransaction F1 s))) in
  transactions s2 = transactions s ++ [r]
  /\ nextId s2 = Number.succ n
  /\ find n (transactions s2) = Some r
  /\ (forall t, In t (transactions s2) -> id t = n -> t = r).
Proof.
  intros Hfresh n r s2. subst s2 n.
  rewrite add_then_update_store by exact Hfresh.
  cbn [transactions nextId]. change (of_form (nextId s) F2) with r.
  split; [reflexivity|]. split; [reflexivity|]. split.
  - rewrite find_app_fresh by exact Hfresh. now apply find_head.
  - intros t Ht Hid. apply in_app_or in Ht as [Ht|[<-|[]]]; [|reflexivity].
    exfalso. apply Hfresh. rewrite <- Hid. unfold ids. now apply in_map.
Qed.

Lemma add_then_update_replaces_witness :
  transactions
    (fst (updateTransaction 3 Sample.rent
            (fst (addTransaction Sample.groceries Sample.store))))
  = Sample.ledger
    ++ [{| id := 3;
           amount := parseFloat (OfString (str "750.5"));
           date := str "2024-01-03";
           category := Some (str "expense");
           subCategory := str "rent";
           description := str "flat" |}].
Proof.
  apply (add_then_update_replaces Sample.store Sample.groceries Sample.rent).
  simpl. intros [H|[H|[]]]; discriminate H.
Defined.

(** C2 as the specification states it, for every state, fails: one add
    on a store whose counter is [2 ^ 53] leaves a store that holds a
    record under the identifier of its counter.  There [add(F1)] issues
    that identifier again, [update] replaces the first record that bears
    it, and the record that was added keeps the fields of [F1]. *)
Lemma add_then_update_keeps_added :
  Sample.holding_next
  = {| transactions := [of_form Number.exact_limit Sample.salary];
       nextId := Number.exact_limit |}
  /\ List.map id
       (transactions
          (fst (updateTransaction (nextId Sample.holding_next) Sample.rent
                  (fst (addTransaction Sample.groceries Sample.holding_next)))))
     = [nextId Sample.holding_next; nextId Sample.holding_next]
  /\ List.map subCategory
       (transactions
          (fst (updateTransaction (nextId Sample.holding_next) Sample.rent
                  (fst (addTransaction Sample.groceries Sample.holding_next)))))
     = [str "rent"; str "groceries"]
  /\ List.map amount
       (transactions
          (fst (updateTransaction (nextId Sample.holding_next) Sample.rent
                  (fst (addTransaction Sample.groceries Sample.holding_next)))))
     = [Number.of_decimal false 7505 (-1); Number.of_Z 200]
  /\ ~ (forall t,
          In t (transactions
                  (fst (updateTransaction (nextId Sample.holding_next)
                          Sample.rent
                          (fst (addTransaction Sample.groceries
                                  Sample.holding_next))))) ->
          id t = nextId Sample.holding_next ->
          subCategory t = fd_subCategory Sample.rent).
Proof.
  split; [vm_compute; reflexivity|].
  split; [vm_compute; reflexivity|].
  split; [vm_compute; reflexivity|].
  split; [vm_compute; reflexivity|].
  intros H.
  specialize (H (of_form Number.exact_limit Sample.groceries)).
  assert (E : subCategory (of_form Number.exact_limit Sample.groceries)
              = fd_subCategory Sample.rent).
  { apply H; [|vm_compute; reflexivity].
    right. left. vm_compute. reflexivity. }
  vm_compute in E. discriminate E.
Qed.

(** C3: on a collection with unique identifiers that holds [k], a
    confirmed [delete(k)] removes the one record with that identifier;
    the records before it and after it stay as they were, in their order,
    and the counter is untouched. *)
Theorem delete_removes_exactly_one (s : MoneyManager) (k : Z) :
  NoDup (ids s) ->
  In k (ids s) ->
  exists l1 t l2,
    transactions s = l1 ++ t :: l2
    /\ id t = k
    /\ ~ In k (List.map id (l1 ++ l2))
    /\ fst (deleteTransaction true k s)
       = {| transactions := l1 ++ l2; nextId := nextId s |}.
Proof.
  unfold ids. intros Hnd Hin.
  destruct (findIndex k (transactions s)) as [n|] eqn:F;
    [|apply findIndex_None in F; contradiction].
  destruct (findIndex_Some _ _ _ F) as (l1 & t & l2 & E & Ht & _ & Hn1 & _).
  exists l1, t, l2. unfold deleteTransaction. simpl. rewrite E in Hnd |- *.
  rewrite map_app in Hnd. simpl in Hnd.
  apply NoDup_remove_2 in Hnd. rewrite Ht in Hnd.
  assert (Hn2 : ~ In k (List.map id l2))
    by (intros H; apply Hnd, in_or_app; now right).
  repeat split; trivial.
  - now rewrite map_app.
  - f_equal. rewrite filter_app. simpl.
    rewrite Ht, Z.eqb_refl. simpl.
    now rewrite !filter_fresh.
Qed.

Lemma delete_removes_exactly_one_witness :
  exists l1 t l2,
    transactions Sample.store = l1 ++ t :: l2
    /\ id t = 1
    /\ ~ In 1 (List.map id (l1 ++ l2))
    /\ fst (deleteTransaction true 1 Sample.store)
       = {| transactions := l1 ++ l2; nextId := nextId Sample.store |}.
Proof.
  apply delete_removes_exactly_one.
  - repeat constructor; simpl; intuition discriminate.
  - simpl. now left.
Defined.

(** C9: [update(k, newFields)] on a collection that holds no [k] returns
    the store as it was, collection and counter, and asks for no save and
    no rendering; the function is total, so nothing is thrown. *)
Theorem update_absent_is_noop (s : MoneyManager) (k : Z) (newFields : FormData) :
  ~ In k (ids s) ->
  updateTransaction k newFields s = (s, []).
Proof.
  intros H. unfold updateTransaction.
  apply findIndex_None in H. now rewrite H.
Qed.

Lemma update_absent_is_noop_witness :
  updateTransaction 7 Sample.rent Sample.store = (Sample.store, []).
Proof.
  apply update_absent_is_noop.
  simpl. intros [H|[H|[]]]; discriminate H.
Defined.

(** ** Every stored record comes from the constructor *)

Lemma new_Transaction_normalised i a d c sc de :
  normalised [a] (new_Transaction i a d c sc de).
Proof.
  split.
  - exists a. split; [now left | reflexivity].
  - apply trim_no_outer_space.
Qed.

Lemma normalised_incl (l1 l2 : list numberOrString) (t : Transaction) :
  incl l1 l2 -> normalised l1 t -> normalised l2 t.
Proof.
  intros Hincl [(a & Ha & E) Hd]. split; [|exact Hd].
  exists a. split; [now apply Hincl | exact E].
Qed.

Lemma set_at_In (n : nat) (x t : Transaction) (ts : list Transaction) :
  In t (set_at n x ts) -> t = x \/ In t ts.
Proof.
  revert n; induction ts as [|u ts IH]; intros [|n]; simpl.
  - intros [H|[]]. now left.
  - intros [].
  - intros [H|H]; [now left | now right; right].
  - intros [H|H]; [now right; left|]. apply IH in H. tauto.
Qed.

(** One event keeps the records normalised, with its own amounts added
    to those on offer. *)
Lemma handle_normalised (e : event) (s : MoneyManager)
    (offered : list numberOrString) :
  Forall (normalised offered) (transactions s) ->
  Forall (normalised (offered ++ supplied e)) (transactions (handle e s)).
Proof.
  intros H.
  assert (Hold : Forall (normalised (offered ++ supplied e)) (transactions s)).
  { eapply Forall_impl; [|exact H]. intros t.
    apply normalised_incl, incl_appl, incl_refl. }
  destruct e as [[|[stored|]]|[f|i f|c i]]; simpl; trivial.
  - apply Forall_forall. intros t Ht.
    apply in_map_iff in Ht as (r & <- & Hr).
    eapply normalised_incl; [|apply new_Transaction_normalised].
    intros a [<-|[]]. apply in_or_app. right. now apply in_map.
  - apply Forall_app. split; [exact Hold|]. constructor; [|constructor].
    eapply normalised_incl; [|apply new_Transaction_normalised].
    apply incl_appr, incl_refl.
  - unfold updateTransaction.
    destruct (findIndex i (transactions s)) as [n|]; simpl; [|exact Hold].
    apply Forall_forall. intros t Ht. apply set_at_In in Ht as [->|Ht].
    + eapply normalised_incl; [|apply new_Transaction_normalised].
      apply incl_appr, incl_refl.
    + revert t Ht. now apply Forall_forall.
  - destruct c; simpl; [|exact Hold].
    apply Forall_forall. intros t Ht. apply filter_In in Ht as [Ht _].
    revert t Ht. now apply Forall_forall.
Qed.

Lemma run_events_normalised (es : list event) (s : MoneyManager)
    (offered : list numberOrString) :
  Forall (normalised offered) (transactions s) ->
  Forall (normalised (offered ++ flat_map supplied es))
         (transactions (run_events es s)).
Proof.
  revert s offered; induction es as [|e es IH]; intros s offered H; simpl.
  - now rewrite app_nil_r.
  - rewrite app_assoc. apply IH. now apply handle_normalised.
Qed.

(** C10: whatever loads, adds, updates and deletes a new store has gone
    through, each record it holds has as [amount] the [parseFloat] of an
    amount that one of these events supplied, and a [description] with no
    white space at either end. *)
Theorem stored_records_normalised (es : list event) (t : Transaction) :
  In t (transactions (run_events es initial)) ->
  (exists a, In a (flat_map supplied es) /\ amount t = parseFloat a)
  /\ no_outer_space (description t).
Proof.
  intros Ht.
  pose proof (run_events_normalised es initial [] (Forall_nil _)) as H.
  simpl in H. rewrite Forall_forall in H. exact (H t Ht).
Qed.

Lemma stored_records_normalised_witness :
  (exists a,
      In a (flat_map supplied [Loaded (Resolved None); Op (Add Sample.salary)])
      /\ amount (of_form 1 Sample.salary) = parseFloat a)
  /\ no_outer_space (description (of_form 1 Sample.salary)).
Proof.
  apply (stored_records_normalised
           [Loaded (Resolved None); Op (Add Sample.salary)]).
  simpl. now left.
Defined.

(** ** The summary *)

Lemma fold_filter_sum (c : jsstring) (ts : list Transaction) (acc : number) :
  fold_left (fun sum t => Number.add sum (amount t))
    (filter (fun t => optString_eqb (category t) c) ts) acc
  = sum_amounts c acc ts.
Proof.
  revert acc; induction ts as [|t ts IH]; intros acc; simpl; [reflexivity|].
  destruct (category_dec t c) as [E|NE].
  - apply optString_eqb_eq in E. rewrite E. simpl. apply IH.
  - destruct (optString_eqb (category t) c) eqn:E.
    + apply optString_eqb_eq in E. contradiction.
    + apply IH.
Qed.

Lemma sum_amounts_app (c : jsstring) (acc : number) (A B : list Transaction) :
  sum_amounts c acc (A ++ B) = sum_amounts c (sum_amounts c acc A) B.
Proof.
  revert acc; induction A as [|t A IH]; intros acc; simpl; [reflexivity|].
  apply IH.
Qed.

(** The example of the specification: an income of 1000 and an expense
    of 200. *)
Lemma summary_of_sample_ledger :
  totalIncome Sample.ledger = Number.of_Z 1000
  /\ totalExpenses Sample.ledger = Number.of_Z 200
  /\ netBalance Sample.ledger = Number.of_Z 800.
Proof. repeat split; reflexivity. Qed.

(** The totals of [A ++ B] are those of [A] with the amounts of [B]
    added on, one record after the other, and the net balance is the
    difference of the two totals of [A ++ B]. *)
Lemma summary_continues_over_append (A B : list Transaction) :
  totalIncome (A ++ B) = sum_amounts (str "income") (totalIncome A) B
  /\ totalExpenses (A ++ B) = sum_amounts (str "expense") (totalExpenses A) B
  /\ netBalance (A ++ B)
     = Number.sub (sum_amounts (str "income") (totalIncome A) B)
                  (sum_amounts (str "expense") (totalExpenses A) B).
Proof.
  assert (HI : totalIncome (A ++ B)
               = sum_amounts (str "income") (totalIncome A) B).
  { unfold totalIncome, isIncome. now rewrite !fold_filter_sum, sum_amounts_app. }
  assert (HE : totalExpenses (A ++ B)
               = sum_amounts (str "expense") (totalExpenses A) B).
  { unfold totalExpenses, isExpense.
    now rewrite !fold_filter_sum, sum_amounts_app. }
  unfold netBalance. now rewrite HI, HE.
Qed.

(** C5 as the specification states it fails: with incomes of 0.1 in [A]
    and of 0.2 and 0.3 in [B], the income of [A ++ B] is
    0.6000000000000001 and the sum of the two incomes is 0.6. *)
Lemma summary_not_additive :
  disjoint Sample.first_dime Sample.other_dimes
  /\ totalIncome (Sample.first_dime ++ Sample.other_dimes)
     = Number.of_decimal false 6000000000000001 (-16)
  /\ Number.add (totalIncome Sample.first_dime) (totalIncome Sample.other_dimes)
     = Number.of_decimal false 6 (-1)
  /\ totalIncome (Sample.first_dime ++ Sample.other_dimes)
     <> Number.add (totalIncome Sample.first_dime)
                   (totalIncome Sample.other_dimes).
Proof.
  split; [|split; [|split]].
  - intros t [<-|[]] [H|[H|[]]]; apply (f_equal id) in H; discriminate H.
  - vm_compute. reflexivity.
  - vm_compute. reflexivity.
  - vm_compute. discriminate.
Qed.

(** ** The projection *)

Lemma insert_In (comparefn : Transaction -> Transaction -> number)
    (x t : Transaction) (l : list Transaction) :
  In t (insert comparefn x l) <-> t = x \/ In t l.
Proof.
  induction l as [|y l IH]; simpl.
  - intuition.
  - destruct (Number.ltb Number.zero (SortCompare comparefn x y)); simpl.
    + rewrite IH. intuition.
    + intuition.
Qed.

(** Sorting neither drops nor invents a record. *)
Lemma sort_In (comparefn : Transaction -> Transaction -> number)
    (t : Transaction) (l : list Transaction) :
  In t (sort comparefn l) <-> In t l.
Proof.
  induction l as [|x l IH]; simpl; [tauto|].
  rewrite insert_In, IH. intuition.
Qed.

Lemma sort_length (comparefn : Transaction -> Transaction -> number)
    (l : list Transaction) :
  List.length (sort comparefn l) = List.length l.
Proof.
  induction l as [|x l IH]; simpl; [reflexivity|].
  rewrite <- IH. generalize (sort comparefn l) as m.
  induction m as [|y m IHm]; simpl; [reflexivity|].
  destruct (Number.ltb Number.zero (SortCompare comparefn x y)); simpl;
    [now rewrite IHm | reflexivity].
Qed.

(** A comparison function that never answers above 0 moves nothing. *)
Lemma sort_unmoved (comparefn : Transaction -> Transaction -> number)
    (l : list Transaction) :
  (forall a b, Number.ltb Number.zero (SortCompare comparefn a b) = false) ->
  sort comparefn l = l.
Proof.
  intros H. induction l as [|x l IH]; simpl; [reflexivity|].
  rewrite IH. destruct l as [|y l]; simpl; [reflexivity|]. now rewrite H.
Qed.

Lemma eqb_unrecognised (sortOption known : jsstring) :
  recognised known -> ~ recognised sortOption ->
  JsString.eqb sortOption known = false.
Proof.
  intros Hk Hs. apply JsString_eqb_neq. intros ->. contradiction.
Qed.

Lemma compareFn_default (sortOption : jsstring) (a b : Transaction) :
  ~ recognised sortOption -> compareFn sortOption a b = Number.zero.
Proof.
  intros H. unfold compareFn.
  rewrite !eqb_unrecognised; trivial; unfold recognised; simpl; tauto.
Qed.

(** C6: with the category filter ["all"], an empty date filter and a sort
    option that is none of the four that the comparison function knows,
    the projection is the collection itself, in its order. *)
Theorem identity_projection (ts : list Transaction) (sortOption : jsstring) :
  ~ recognised sortOption ->
  filteredAndSorted ts (str "all") [] sortOption = ts.
Proof.
  intros H. unfold filteredAndSorted. simpl.
  apply sort_unmoved. intros a b.
  unfold SortCompare. now rewrite compareFn_default.
Qed.

Lemma identity_projection_witness :
  filteredAndSorted Sample.ledger (str "all") [] [] = Sample.ledger.
Proof.
  apply identity_projection.
  unfold recognised. simpl. intros [H|[H|[H|[H|[]]]]]; discriminate H.
Defined.

(** C7: a record is in the projection exactly when it is in the
    collection and passes both filters: its category is the category
    filter, unless that is ["all"], and its date is the date filter,
    unless that is empty.  The sort option plays no part. *)
Theorem projection_filters_conjunctively (ts : list Transaction)
    (categoryFilter dateFilter sortOption : jsstring) (t : Transaction) :
  In t (filteredAndSorted ts categoryFilter dateFilter sortOption)
  <-> In t ts /\ passes_category categoryFilter t /\ passes_date dateFilter t.
Proof.
  unfold filteredAndSorted, passes_category, passes_date.
  rewrite sort_In.
  destruct (JsString.eqb categoryFilter (str "all")) eqn:Ec;
    destruct (JsString.truthy dateFilter) eqn:Ed; simpl;
    rewrite ?filter_In, ?optString_eqb_eq, ?JsString_eqb_eq.
  - apply JsString_eqb_eq in Ec.
    assert (dateFilter <> []) by (intros ->; discriminate Ed). tauto.
  - apply JsString_eqb_eq in Ec. apply truthy_false in Ed. tauto.
  - apply JsString_eqb_neq in Ec.
    assert (dateFilter <> []) by (intros ->; discriminate Ed). tauto.
  - apply JsString_eqb_neq in Ec. apply truthy_false in Ed. tauto.
Qed.

(** The example of the specification: the incomes of the sample ledger,
    by descending amount. *)
Lemma projection_of_sample_ledger :
  filteredAndSorted Sample.ledger (str "income") [] (str "amount-desc")
  = [of_form 1 Sample.salary].
Proof. reflexivity. Qed.

(** ** Validation *)

(** [validateForm] runs its four checks whatever the earlier ones found:
    it shows the error of every field that fails, in the order of the
    checks, and returns [true] when none fails. *)
Lemma validateForm_collects (today : Z) (formData : FormData) :
  validateForm today formData
  = (negb (amount_rejected formData || date_rejected today formData
           || category_rejected formData || subCategory_rejected formData),
     (if amount_rejected formData then [amount_error] else [])
     ++ (if date_rejected today formData then [date_error] else [])
     ++ (if category_rejected formData then [category_error] else [])
     ++ (if subCategory_rejected formData then [sub_category_error] else [])).
Proof.
  unfold validateForm, check.
  destruct (amount_rejected formData), (date_rejected today formData),
    (category_rejected formData), (subCategory_rejected formData);
    reflexivity.
Qed.

Lemma validateForm_blank (today : Z) :
  validateForm today Sample.blank
  = (false, [amount_error; date_error; category_error; sub_category_error]).
Proof. reflexivity. Qed.

(** A date of 1 January 2024 passes from that day's midnight UTC on. *)
Lemma date_rejected_new_year (today : Z) (a : string) (c : option jsstring)
    (sc de : string) :
  Sample.jan_1_2024 <= today ->
  date_rejected today (Sample.form a "2024-01-01" c sc de) = false.
Proof.
  intros H. unfold date_rejected.
  change (JsDate.parse (fd_date (Sample.form a "2024-01-01" c sc de)))
    with (Some Sample.jan_1_2024).
  simpl. now apply Z.ltb_ge.
Qed.

(** The example of the specification: an amount of [-5] is the one
    field that fails. *)
Lemma validateForm_negative_amount (today : Z) :
  Sample.jan_1_2024 <= today ->
  validateForm today Sample.negative_amount = (false, [amount_error]).
Proof.
  intros H. rewrite validateForm_collects.
  unfold Sample.negative_amount. rewrite date_rejected_new_year by exact H.
  reflexivity.
Qed.

(** C8 fails on the code: a form whose amount is the empty string passes
    validation with no error shown, although the amount that the
    constructor then records, [parseFloat("")], is [NaN], no positive
    finite number.  [isNaN("")] is false, [Number("")] being 0, and
    [NaN <= 0] is false. *)
Theorem validateForm_accepts_empty_amount (today : Z) :
  Sample.jan_1_2024 <= today ->
  validateForm today Sample.empty_amount = (true, [])
  /\ amount (of_form 1 Sample.empty_amount) = Number.NaN
  /\ positive_finite (amount (of_form 1 Sample.empty_amount)) = false.
Proof.
  intros H. split; [|split; reflexivity].
  rewrite validateForm_collects.
  unfold Sample.empty_amount. rewrite date_rejected_new_year by exact H.
  reflexivity.
Qed.

Lemma validateForm_accepts_empty_amount_witness :
  validateForm Sample.nov_3_2026 Sample.empty_amount = (true, [])
  /\ amount (of_form 1 Sample.empty_amount) = Number.NaN
  /\ positive_finite (amount (of_form 1 Sample.empty_amount)) = false.
Proof.
  apply validateForm_accepts_empty_amount. discriminate.
Defined.

(** Where local time is ahead of UTC the date check refuses the current
    day: the date string is read as midnight UTC, which is later than the
    local midnight that it is compared with. *)
Lemma validateForm_refuses_today_east_of_utc :
  validateForm Sample.jan_1_2024_ist Sample.new_year = (false, [date_error]).
Proof. reflexivity. Qed.

(** ** Loading *)

Lemma fold_max_ge (l : list Z) (m : Z) :
  m <= fold_left Z.max l m /\ forall i, In i l -> i <= fold_left Z.max l m.
Proof.
  revert m; induction l as [|x l IH]; intros m; simpl.
  - split; [lia | intros i []].
  - destruct (IH (Z.max m x)) as [H1 H2]. split; [lia|].
    intros i [<-|Hi]; [lia | now apply H2].
Qed.

Lemma Math_max_ge (l : list Z) (i : Z) : In i l -> i <= Math_max l.
Proof.
  destruct l as [|x l]; simpl; [intros []|].
  destruct (fold_max_ge l x) as [H1 H2].
  intros [<-|Hi]; [exact H1 | now apply H2].
Qed.

Lemma Math_max_In (l : list Z) : l <> [] -> In (Math_max l) l.
Proof.
  destruct l as [|x l]; [congruence|]. intros _. simpl.
  revert x; induction l as [|y l IH]; intros x; simpl; [now left|].
  destruct (IH (Z.max x y)) as [H|H]; [|now right; right].
  destruct (Z.max_spec x y) as [[_ E]|[_ E]]; rewrite E in H |- *.
  - right. now left.
  - now left.
Qed.

(** A store loaded from records whose identifiers are in the safe range
    has its counter above all of them; a load that fails, or finds
    nothing, leaves the store as it was. *)
Lemma loadInitialData_counter (stored : list StoredRecord) (s : MoneyManager) :
  (forall r, In r stored -> - Number.exact_limit <= st_id r < Number.exact_limit) ->
  let s' := fst (loadInitialData (Resolved (Some stored)) s) in
  ids s' = List.map st_id stored
  /\ forall i, In i (ids s') -> i < nextId s'.
Proof.
  intros Hsafe s'. subst s'. unfold ids. simpl.
  assert (E : List.map id (List.map rehydrate stored) = List.map st_id stored).
  { rewrite map_map. apply map_ext. reflexivity. }
  split; [exact E|]. rewrite E.
  destruct stored as [|r stored]; [intros i []|].
  change (List.map rehydrate (r :: stored))
    with (rehydrate r :: List.map rehydrate stored).
  cbv beta iota. intros i Hi.
  assert (Hm : In (Math_max (List.map st_id (r :: stored)))
                  (List.map st_id (r :: stored)))
    by (apply Math_max_In; discriminate).
  apply in_map_iff in Hm as (r' & Er & Hr'). apply Hsafe in Hr'.
  rewrite succ_safe by (rewrite <- Er; exact Hr').
  apply Math_max_ge in Hi. lia.
Qed.

Lemma loadInitialData_failed (s : MoneyManager) :
  loadInitialData Rejected s = (s, [renderTransactions; updateSummary])
  /\ loadInitialData (Resolved None) s = (s, [renderTransactions; updateSummary]).
Proof. split; reflexivity. Qed.

(** ** More on the store *)

Lemma store_eta (s : MoneyManager) :
  {| transactions := transactions s; nextId := nextId s |} = s.
Proof. now destruct s. Qed.

(** X1: loading records whose identifiers are unique and within the safe
    range gives a well-formed store: it holds the stored identifiers in
    their order and its counter is above them all. *)
Theorem loadInitialData_well_formed (stored : list StoredRecord)
    (s : MoneyManager) :
  NoDup (List.map st_id stored) ->
  (forall r, In r stored ->
             - Number.exact_limit <= st_id r < Number.exact_limit) ->
  well_formed (fst (loadInitialData (Resolved (Some stored)) s))
  /\ ids (fst (loadInitialData (Resolved (Some stored)) s))
     = List.map st_id stored.
Proof.
  intros Hnd Hsafe.
  destruct (loadInitialData_counter stored s Hsafe) as [E Hlt].
  split; [|exact E]. split; [now rewrite E | exact Hlt].
Qed.

Lemma loadInitialData_well_formed_witness :
  well_formed (fst (loadInitialData (Resolved (Some Sample.stored_ledger))
                      initial))
  /\ ids (fst (loadInitialData (Resolved (Some Sample.stored_ledger)) initial))
     = List.map st_id Sample.stored_ledger.
Proof.
  apply loadInitialData_well_formed.
  - repeat constructor; simpl; intuition discriminate.
  - intros r [<-|[<-|[]]]; (split; [discriminate | reflexivity]).
Defined.



Lemma findIndex_first (k : Z) (l1 l2 : list Transaction) (t : Transaction) :
  ~ In k (List.map id l1) -> id t = k ->
  findIndex k (l1 ++ t :: l2) = Some (List.length l1).
Proof.
  intros Hn Ht. induction l1 as [|u l1 IH]; simpl.
  - now rewrite Ht, Z.eqb_refl.
  - simpl in Hn. destruct (Z.eqb_spec (id u) k) as [E|NE]; [tauto|].
    rewrite IH by tauto. reflexivity.
Qed.

Lemma set_at_middle (l1 l2 : list Transaction) (t x : Transaction) :
  set_at (List.length l1) x (l1 ++ t :: l2) = l1 ++ x :: l2.
Proof. induction l1 as [|u l1 IH]; simpl; [reflexivity | now rewrite IH]. Qed.

(** X3: an update never touches identifiers, their order, or the
    counter; when the identifier is present, the first record that bears
    it is replaced where it stands by the constructor's record, every
    other record stays, and a save and a refresh are asked for. *)
Theorem update_in_place (s : MoneyManager) (k : Z) (F : FormData) :
  ids (fst (updateTransaction k F s)) = ids s
  /\ nextId (fst (updateTransaction k F s)) = nextId s
  /\ (In k (ids s) ->
      exists l1 t l2,
        transactions s = l1 ++ t :: l2
        /\ id t = k
        /\ ~ In k (List.map id l1)
        /\ updateTransaction k F s
           = ({| transactions := l1 ++ of_form k F :: l2; nextId := nextId s |},
              [saveTransactions (l1 ++ of_form k F :: l2);
               renderTransactions; updateSummary])).
Proof.
  split; [exact (ids_update k F s)|].
  split; [exact (nextId_step (Update k F) s)|].
  intros Hin. unfold updateTransaction.
  destruct (findIndex k (transactions s)) as [n|] eqn:Fi;
    [|apply findIndex_None in Fi; contradiction].
  destruct (findIndex_Some _ _ _ Fi) as (l1 & t & l2 & E & Ht & _ & Hn & Hs).
  exists l1, t, l2. rewrite Hs. tauto.
Qed.

Lemma update_in_place_witness :
  exists l1 t l2,
    transactions Sample.store = l1 ++ t :: l2
    /\ id t = 2
    /\ ~ In 2 (List.map id l1)
    /\ updateTransaction 2 Sample.rent Sample.store
       = ({| transactions := l1 ++ of_form 2 Sample.rent :: l2;
             nextId := nextId Sample.store |},
          [saveTransactions (l1 ++ of_form 2 Sample.rent :: l2);
           renderTransactions; updateSummary]).
Proof.
  apply (update_in_place Sample.store 2 Sample.rent).
  simpl. right. now left.
Defined.

(** X4: of two updates of one identifier in a row, the second alone
    counts. *)
Theorem update_twice (s : MoneyManager) (k : Z) (F1 F2 : FormData) :
  fst (updateTransaction k F2 (fst (updateTransaction k F1 s)))
  = fst (updateTransaction k F2 s).
Proof.
  unfold updateTransaction at 2 3.
  destruct (findIndex k (transactions s)) as [n|] eqn:Fi; simpl.
  - destruct (findIndex_Some _ _ _ Fi) as (l1 & t & l2 & E & Ht & Hl & Hn & Hs).
    unfold updateTransaction. simpl. rewrite !Hs.
    rewrite findIndex_first by (trivial; reflexivity). simpl.
    now rewrite set_at_middle.
  - unfold updateTransaction. now rewrite Fi.
Qed.

(** X5: an add followed by the confirmed delete of the identifier it
    issued gives back the collection as it was, on a store that did not
    hold that identifier; the counter has moved on. *)
Theorem add_then_delete (s : MoneyManager) (F : FormData) :
  ~ In (nextId s) (ids s) ->
  fst (deleteTransaction true (nextId s) (fst (addTransaction F s)))
  = {| transactions := transactions s; nextId := Number.succ (nextId s) |}.
Proof.
  intros H. unfold deleteTransaction, addTransaction. simpl. f_equal.
  rewrite filter_app. simpl. rewrite Z.eqb_refl. simpl.
  rewrite app_nil_r. now apply filter_fresh.
Qed.

Lemma add_then_delete_witness :
  fst (deleteTransaction true (nextId Sample.store)
         (fst (addTransaction Sample.rent Sample.store)))
  = {| transactions := transactions Sample.store;
       nextId := Number.succ (nextId Sample.store) |}.
Proof.
  apply add_then_delete.
  simpl. intros [H|[H|[]]]; discriminate H.
Defined.

(** X6: a confirmed delete of an identifier that the collection does not
    hold leaves the store as it is, and all the same asks for a save and
    a refresh; an update in that case asks for nothing. *)
Theorem delete_absent (s : MoneyManager) (k : Z) :
  ~ In k (ids s) ->
  deleteTransaction true k s
  = (s, [saveTransactions (transactions s); renderTransactions; updateSummary]).
Proof.
  intros H. unfold deleteTransaction.
  rewrite filter_fresh by exact H. now rewrite store_eta.
Qed.

Lemma delete_absent_witness :
  deleteTransaction true 7 Sample.store
  = (Sample.store,
     [saveTransactions (transactions Sample.store); renderTransactions;
      updateSummary]).
Proof.
  apply delete_absent.
  simpl. intros [H|[H|[]]]; discriminate H.
Defined.

(** ** Saving and loading again *)

Lemma trimStart_fixed (s : jsstring) :
  (forall c r, s = c :: r -> JsString.is_space c = false) ->
  JsString.trimStart s = s.
Proof.
  destruct s as [|c r]; simpl; [reflexivity|].
  intros H. now rewrite (H c r eq_refl).
Qed.

(** [trim] leaves alone a string with no white space at its ends. *)
Lemma trim_fixed (s : jsstring) : no_outer_space s -> JsString.trim s = s.
Proof.
  intros [Hh Hl]. unfold JsString.trim, JsString.trimEnd.
  rewrite (trimStart_fixed s Hh).
  rewrite trimStart_fixed; [apply rev_involutive|].
  intros c r E. apply (Hl (rev r) c).
  rewrite <- (rev_involutive s), E. reflexivity.
Qed.

Lemma trim_idempotent (s : jsstring) :
  JsString.trim (JsString.trim s) = JsString.trim s.
Proof. apply trim_fixed, trim_no_outer_space. Qed.

Lemma parseFloat_number_not_negative_zero (x : number) :
  parseFloat (OfNumber x) <> S754_zero true.
Proof. destruct x as [[|]| | |]; discriminate. Qed.

Lemma rehydrate_reloadable (t : Transaction) :
  reloadable t -> rehydrate (as_stored t) = t.
Proof.
  intros [Hd Ha]. destruct t as [i a d c sc de].
  unfold rehydrate, as_stored, new_Transaction. simpl in *.
  rewrite (trim_fixed de Hd). f_equal.
  destruct a as [[|]| | |]; try reflexivity. contradiction.
Qed.

(** X7: the record that [loadInitialData] builds from the saved fields of
    a record is that record, when its description has no white space at the
    ends and its amount is not [-0]; and whatever the record, what comes
    back from a first reload comes back unchanged from every later one. *)
Theorem rehydrate_round_trip (t : Transaction) :
  (reloadable t -> rehydrate (as_stored t) = t)
  /\ reloadable (rehydrate (as_stored t))
  /\ rehydrate (as_stored (rehydrate (as_stored t))) = rehydrate (as_stored t).
Proof.
  assert (H : reloadable (rehydrate (as_stored t))).
  { split; [apply trim_no_outer_space|].
    apply parseFloat_number_not_negative_zero. }
  split; [apply rehydrate_reloadable|].
  split; [exact H | now apply rehydrate_reloadable].
Qed.

Lemma rehydrate_round_trip_witness :
  rehydrate (as_stored (of_form 1 Sample.salary)) = of_form 1 Sample.salary.
Proof.
  destruct (rehydrate_round_trip (of_form 1 Sample.salary)) as [H _].
  apply H. split; [apply trim_no_outer_space | discriminate].
Defined.

(** X8: take a store with unique identifiers, all below its counter and
    none below [- 2 ^ 53], whose counter is at least 1 and at most
    [2 ^ 53], and whose records each have a description with no white
    space at either end and an amount other than [-0].  Saved and loaded
    again, it holds the same records in the same order; it is well
    formed; and its counter, set anew from the largest identifier, is
    never above the old one: identifiers issued and deleted since may be
    issued again. *)
Theorem reload_store (s : MoneyManager) :
  well_formed s ->
  Forall reloadable (transactions s) ->
  (forall i, In i (ids s) -> - Number.exact_limit <= i) ->
  1 <= nextId s <= Number.exact_limit ->
  let s' :=
    fst (loadInitialData
           (Resolved (Some (List.map as_stored (transactions s)))) s) in
  transactions s' = transactions s
  /\ well_formed s'
  /\ nextId s' <= nextId s.
Proof.
  intros [Hnd Hlt] Hre Hlo Hn s'.
  assert (Eids : List.map st_id (List.map as_stored (transactions s)) = ids s).
  { unfold ids. rewrite map_map. apply map_ext. reflexivity. }
  assert (Hsafe : forall r, In r (List.map as_stored (transactions s)) ->
            - Number.exact_limit <= st_id r < Number.exact_limit).
  { intros r Hr. assert (Hi : In (st_id r) (ids s))
      by (rewrite <- Eids; now apply in_map).
    split; [now apply Hlo | apply Hlt in Hi; lia]. }
  assert (Ets : transactions s' = transactions s).
  { subst s'. simpl. rewrite map_map.
    rewrite <- (map_id (transactions s)) at 2. apply map_ext_in.
    intros t Ht. apply rehydrate_reloadable.
    rewrite Forall_forall in Hre. now apply Hre. }
  assert (Hwf : well_formed s').
  { destruct (loadInitialData_counter _ s Hsafe) as [E Hc].
    split; [|exact Hc]. fold s' in E. rewrite E, Eids. exact Hnd. }
  split; [exact Ets|]. split; [exact Hwf|].
  unfold s', loadInitialData in Ets |- *. cbn [fst nextId transactions] in Ets |- *.
  rewrite Ets. fold (ids s).
  destruct (transactions s) as [|t ts] eqn:Et; [lia|].
  assert (Hm : In (Math_max (ids s)) (ids s)).
  { apply Math_max_In. unfold ids. rewrite Et. discriminate. }
  pose proof (Hlt _ Hm). pose proof (Hlo _ Hm).
  rewrite succ_safe by lia. lia.
Qed.

Lemma reload_store_witness :
  transactions
    (fst (loadInitialData
            (Resolved (Some (List.map as_stored (transactions Sample.store))))
            Sample.store))
  = transactions Sample.store.
Proof.
  apply (reload_store Sample.store).
  - split.
    + repeat constructor; simpl; intuition discriminate.
    + simpl. intros i [<-|[<-|[]]]; reflexivity.
  - repeat constructor; try apply trim_no_outer_space; discriminate.
  - simpl. intros i [<-|[<-|[]]]; discriminate.
  - split; discriminate.
Defined.

(** ** Sorting *)

Lemma insert_Permutation (comparefn : Transaction -> Transaction -> number)
    (x : Transaction) (l : list Transaction) :
  Permutation (insert comparefn x l) (x :: l).
Proof.
  induction l as [|y l IH]; simpl; [apply Permutation_refl|].
  destruct (Number.ltb Number.zero (SortCompare comparefn x y)).
  - eapply Permutation_trans; [apply perm_skip, IH | apply perm_swap].
  - apply Permutation_refl.
Qed.

Lemma sort_Permutation (comparefn : Transaction -> Transaction -> number)
    (l : list Transaction) :
  Permutation (sort comparefn l) l.
Proof.
  induction l as [|x l IH]; simpl; [constructor|].
  eapply Permutation_trans; [apply insert_Permutation | now apply perm_skip].
Qed.

Lemma unsorted_projection (ts : list Transaction)
    (categoryFilter dateFilter : jsstring) :
  filteredAndSorted ts categoryFilter dateFilter []
  = filter (fun t => negb (JsString.truthy dateFilter)
                     || JsString.eqb (date t) dateFilter)
      (filter (fun t => JsString.eqb categoryFilter (str "all")
                        || optString_eqb (category t) categoryFilter) ts)
    /\ (List.length (filteredAndSorted ts categoryFilter dateFilter [])
        <= List.length ts)%nat.
Proof.
  assert (E : filteredAndSorted ts categoryFilter dateFilter []
    = filter (fun t => negb (JsString.truthy dateFilter)
                       || JsString.eqb (date t) dateFilter)
        (filter (fun t => JsString.eqb categoryFilter (str "all")
                          || optString_eqb (category t) categoryFilter) ts)).
  { unfold filteredAndSorted. rewrite sort_unmoved.
    2:{ intros a b. unfold SortCompare. rewrite compareFn_default; [reflexivity|].
        unfold recognised. simpl. intros [H|[H|[H|[H|[]]]]]; discriminate H. }
    destruct (JsString.eqb categoryFilter (str "all"));
      destruct (JsString.truthy dateFilter); simpl;
      induction ts as [|t ts IH]; simpl; try reflexivity;
      destruct (optString_eqb (category t) categoryFilter); simpl;
      destruct (JsString.eqb (date t) dateFilter); simpl; congruence. }
  split; [exact E|]. rewrite E.
  eapply Nat.le_trans; apply filter_length_le.
Qed.

(** X9: whatever the sort option, and whatever the comparison function
    answers, the projection holds the records that pass the two filters,
    each as many times as the collection holds it: it is a permutation of
    the unsorted projection, and never longer than the collection. *)
Theorem projection_permutation (ts : list Transaction)
    (categoryFilter dateFilter sortOption : jsstring) :
  Permutation (filteredAndSorted ts categoryFilter dateFilter sortOption)
              (filteredAndSorted ts categoryFilter dateFilter [])
  /\ (List.length (filteredAndSorted ts categoryFilter dateFilter sortOption)
      <= List.length ts)%nat.
Proof.
  assert (P : Permutation
                (filteredAndSorted ts categoryFilter dateFilter sortOption)
                (filteredAndSorted ts categoryFilter dateFilter [])).
  { unfold filteredAndSorted.
    eapply Permutation_trans; [apply sort_Permutation|].
    apply Permutation_sym, sort_Permutation. }
  split; [exact P|].
  rewrite (Permutation_length P). apply unsorted_projection.
Qed.

Lemma orders_by_incl (comparefn : Transaction -> Transaction -> number)
    (key : Transaction -> Z) (l l' : list Transaction) :
  incl l' l -> orders_by comparefn key l -> orders_by comparefn key l'.
Proof. intros Hi H a b Ha Hb. apply H; now apply Hi. Qed.

Lemma insert_sorted (comparefn : Transaction -> Transaction -> number)
    (key : Transaction -> Z) (x : Transaction) (l : list Transaction) :
  orders_by comparefn key (x :: l) ->
  StronglySorted (fun a b => key a <= key b) l ->
  StronglySorted (fun a b => key a <= key b) (insert comparefn x l).
Proof.
  intros Ho Hs. induction l as [|y l IH]; simpl.
  - repeat constructor.
  - inversion Hs as [|y' l' Hs' Hy]; subst.
    rewrite (Ho x y) by (simpl; tauto).
    destruct (Z.ltb_spec (key y) (key x)) as [Hlt|Hge].
    + constructor.
      * apply IH; [|exact Hs'].
        eapply orders_by_incl; [|exact Ho].
        intros z [<-|Hz]; simpl; tauto.
      * apply Forall_forall. intros z Hz. apply insert_In in Hz as [->|Hz]; [lia|].
        rewrite Forall_forall in Hy. now apply Hy.
    + constructor; [exact Hs|]. constructor; [exact Hge|].
      rewrite Forall_forall in Hy |- *. intros z Hz. specialize (Hy z Hz). lia.
Qed.

Lemma sort_sorted (comparefn : Transaction -> Transaction -> number)
    (key : Transaction -> Z) (l : list Transaction) :
  orders_by comparefn key l ->
  StronglySorted (fun a b => key a <= key b) (sort comparefn l).
Proof.
  intros Ho. induction l as [|x l IH]; simpl; [constructor|].
  apply insert_sorted with (key := key).
  - intros a b Ha Hb. apply Ho.
    + destruct Ha as [<-|Ha]; [now left | right; now apply sort_In in Ha].
    + destruct Hb as [<-|Hb]; [now left | right; now apply sort_In in Hb].
  - apply IH. eapply orders_by_incl; [|exact Ho]. now apply incl_tl, incl_refl.
Qed.

Lemma insert_stable (comparefn : Transaction -> Transaction -> number)
    (key : Transaction -> Z) (x : Transaction) (l : list Transaction) (k : Z) :
  orders_by comparefn key (x :: l) ->
  filter (fun t => key t =? k) (insert comparefn x l)
  = filter (fun t => key t =? k) (x :: l).
Proof.
  intros Ho. induction l as [|y l IH]; [reflexivity|].
  assert (IH' : filter (fun t => key t =? k) (insert comparefn x l)
                = filter (fun t => key t =? k) (x :: l)).
  { apply IH. eapply orders_by_incl; [|exact Ho].
    intros z [<-|Hz]; simpl; tauto. }
  cbn [insert]. rewrite (Ho x y) by (simpl; tauto).
  destruct (Z.ltb_spec (key y) (key x)) as [Hlt|Hge]; [|reflexivity].
  cbn [filter] in *. rewrite IH'.
  destruct (Z.eqb_spec (key y) k) as [Ey|Ny];
    destruct (Z.eqb_spec (key x) k) as [Ex|Nx]; try reflexivity. lia.
Qed.

Lemma sort_stable (comparefn : Transaction -> Transaction -> number)
    (key : Transaction -> Z) (l : list Transaction) (k : Z) :
  orders_by comparefn key l ->
  filter (fun t => key t =? k) (sort comparefn l)
  = filter (fun t => key t =? k) l.
Proof.
  intros Ho. induction l as [|x l IH]; [reflexivity|]. cbn [sort].
  rewrite insert_stable with (key := key).
  - cbn [filter]. rewrite IH; [reflexivity|].
    eapply orders_by_incl; [|exact Ho]. now apply incl_tl, incl_refl.
  - intros a b Ha Hb. apply Ho.
    + destruct Ha as [<-|Ha]; [now left | right; now apply sort_In in Ha].
    + destruct Hb as [<-|Hb]; [now left | right; now apply sort_In in Hb].
Qed.

(** *** Integers below [2 ^ 53] as binary64 values *)

Lemma binary_round_aux_canonical (s : bool) (m : positive) (e : Z) :
  fexp 53 1024 (Zpos (digits2_pos m) + e) = e -> e <= 971 ->
  binary_round_aux 53 1024 s (Zpos m) e loc_Exact = S754_finite s m e.
Proof.
  intros Hc He. unfold binary_round_aux, shr_fexp.
  cbn [Zdigits2 shr_record_of_loc]. rewrite Hc, Z.sub_diag.
  cbn [shr shr_m loc_of_shr_record round_nearest_even Zdigits2 shr_record_of_loc].
  rewrite Hc, Z.sub_diag. cbn [shr shr_m].
  assert (E : (e <=? 1024 - 53) = true) by (apply Z.leb_le; lia).
  now rewrite E.
Qed.

Lemma digits2_pos_bound (p : positive) (n : Z) :
  Zpos p < 2 ^ n -> Zpos (digits2_pos p) <= n.
Proof.
  revert n; induction p as [p IH|p IH|]; intros n H; cbn [digits2_pos].
  - assert (0 < n) by (destruct n; try lia; simpl in H; lia).
    replace n with (Z.succ (n - 1)) in H by lia. rewrite Z.pow_succ_r in H by lia.
    specialize (IH (n - 1)). lia.
  - assert (0 < n) by (destruct n; try lia; simpl in H; lia).
    replace n with (Z.succ (n - 1)) in H by lia. rewrite Z.pow_succ_r in H by lia.
    specialize (IH (n - 1)). lia.
  - destruct n; try lia; simpl in H; lia.
Qed.

Lemma digits2_pos_iter (p k : positive) :
  digits2_pos (Pos.iter xO p k) = (digits2_pos p + k)%positive.
Proof.
  induction k as [|k IH] using Pos.peano_ind.
  - simpl. lia.
  - rewrite Pos.iter_succ. cbn [digits2_pos]. rewrite IH. lia.
Qed.

(** A positive integer below [2 ^ 53] rounds to a finite Number of the
    sign asked for. *)
Lemma binary_round_small (s : bool) (p : positive) :
  Zpos p < 2 ^ 53 ->
  exists m e, binary_round 53 1024 s p 0 = S754_finite s m e.
Proof.
  intros H. apply digits2_pos_bound in H. unfold binary_round.
  assert (Hf : fexp 53 1024 (Zpos (digits2_pos p) + 0) = Zpos (digits2_pos p) - 53).
  { unfold fexp, emin. lia. }
  rewrite Hf. unfold shl_align.
  destruct (Zpos (digits2_pos p) - 53 - 0) as [|k|k] eqn:Ek; try lia.
  - eexists _, _. apply binary_round_aux_canonical; [|lia].
    rewrite Hf. lia.
  - eexists _, _. apply binary_round_aux_canonical; [|lia].
    rewrite digits2_pos_iter. unfold fexp, emin. lia.
Qed.

(** The Number of an integer below [2 ^ 53] in absolute value is no
    [NaN], and is above 0 exactly when the integer is. *)
Lemma of_Z_sign (z : Z) :
  - 2 ^ 53 < z < 2 ^ 53 ->
  Number.is_nan (Number.of_Z z) = false
  /\ Number.ltb Number.zero (Number.of_Z z) = (0 <? z).
Proof.
  intros H. unfold Number.of_Z, Number.prec, Number.emax, binary_normalize.
  destruct z as [|p|p].
  - split; reflexivity.
  - destruct (binary_round_small false p) as (m & e & ->); [lia|].
    split; reflexivity.
  - destruct (binary_round_small true p) as (m & e & ->); [lia|].
    split; reflexivity.
Qed.

(** *** Time values are small *)

Lemma digits_bound (n : nat) (acc : Z) (s : jsstring) (v : Z) (r : jsstring) :
  JsDate.digits n acc s = Some (v, r) -> 0 <= acc ->
  0 <= v < (acc + 1) * 10 ^ Z.of_nat n.
Proof.
  revert acc s; induction n as [|n IH]; intros acc s H Hacc.
  - simpl in H. injection H as <- _. simpl. lia.
  - cbn [JsDate.digits] in H. destruct s as [|c s]; [discriminate|].
    destruct (Literal.is_digit c) eqn:Hc; [|discriminate].
    unfold Literal.is_digit in Hc. apply andb_true_iff in Hc as [H1 H2].
    apply N.leb_le in H1, H2.
    apply IH in H; [|lia].
    rewrite Nat2Z.inj_succ, Z.pow_succ_r by lia.
    assert (0 < 10 ^ Z.of_nat n) by (apply Z.pow_pos_nonneg; lia).
    assert (Hd : 0 <= Z.of_N (c - 48) <= 9) by lia.
    split; [lia|]. nia.
Qed.

Lemma DaysInMonth_bound (y m : Z) : 28 <= JsDate.DaysInMonth y m <= 31.
Proof.
  unfold JsDate.DaysInMonth.
  destruct (m =? 2); [destruct (JsDate.isLeapYear y); lia|].
  destruct ((m =? 4) || (m =? 6) || (m =? 9) || (m =? 11)); lia.
Qed.

Lemma daysBefore_bound (y : Z) (n : nat) :
  0 <= JsDate.daysBefore y n <= 31 * Z.of_nat n.
Proof.
  induction n as [|n IH]; [simpl; lia|].
  cbn [JsDate.daysBefore].
  pose proof (DaysInMonth_bound y (Z.of_nat (S n))). lia.
Qed.

Lemma DayFromYear_bound (y : Z) :
  0 <= y < 10000 -> - 720000 < JsDate.DayFromYear y < 2940000.
Proof.
  intros H. unfold JsDate.DayFromYear. Z.div_mod_to_equations. lia.
Qed.

Lemma MakeDate_bound (y m d v : Z) :
  JsDate.MakeDate y m d = Some v -> 0 <= y < 10000 ->
  - 2 ^ 52 < v < 2 ^ 52.
Proof.
  unfold JsDate.MakeDate.
  destruct ((1 <=? m) && (m <=? 12) && (1 <=? d)
            && (d <=? JsDate.DaysInMonth y m)) eqn:E; [|discriminate].
  intros H Hy.
  apply andb_true_iff in E as [E Hd2]. apply andb_true_iff in E as [E Hd1].
  apply andb_true_iff in E as [Hm1 Hm2].
  apply Z.leb_le in Hm1, Hm2, Hd1, Hd2.
  pose proof (DaysInMonth_bound y m).
  pose proof (daysBefore_bound y (Z.to_nat (m - 1))).
  pose proof (DayFromYear_bound y Hy).
  injection H as Hv. subst v. unfold JsDate.msPerDay.
  change (2 ^ 52) with 4503599627370496. lia.
Qed.

Lemma parse_bound (s : jsstring) (v : Z) :
  JsDate.parse s = Some v -> - 2 ^ 52 < v < 2 ^ 52.
Proof.
  unfold JsDate.parse.
  destruct (JsDate.digits 4 0 s) as [[y r1]|] eqn:Ey; [|discriminate].
  apply digits_bound in Ey; [|lia].
  assert (Hy : 0 <= y < 10000) by (simpl in Ey; lia).
  destruct r1 as [|c1 r1]; [intros H; eapply MakeDate_bound; eassumption|].
  destruct (JsDate.hyphen_field (c1 :: r1)) as [[m r2]|]; [|discriminate].
  destruct r2 as [|c2 r2]; [intros H; eapply MakeDate_bound; eassumption|].
  destruct (JsDate.hyphen_field (c2 :: r2)) as [[d r3]|]; [|discriminate].
  destruct r3; [|discriminate].
  intros H; eapply MakeDate_bound; eassumption.
Qed.

(** On two valid dates the comparison of SortCompare is that of the
    time values. *)
Lemma diff_sign (a b : option Z) (ta tb : Z) :
  a = Some ta -> b = Some tb ->
  - 2 ^ 52 < ta < 2 ^ 52 -> - 2 ^ 52 < tb < 2 ^ 52 ->
  Number.ltb Number.zero
    (let v := JsDate.diff a b in if Number.is_nan v then Number.zero else v)
  = (tb <? ta).
Proof.
  intros -> -> Ha Hb. cbn [JsDate.diff].
  destruct (of_Z_sign (ta - tb)) as [Hn Hs].
  { change (2 ^ 53) with (2 * 2 ^ 52). lia. }
  cbv zeta. rewrite Hn, Hs.
  destruct (Z.ltb_spec 0 (ta - tb)), (Z.ltb_spec tb ta); lia || reflexivity.
Qed.

(** *** Sorting by date *)

Lemma projection_sorts (ts : list Transaction)
    (categoryFilter dateFilter sortOption : jsstring) :
  filteredAndSorted ts categoryFilter dateFilter sortOption
  = sort (compareFn sortOption)
      (filteredAndSorted ts categoryFilter dateFilter []).
Proof.
  unfold filteredAndSorted.
  rewrite (sort_unmoved (compareFn [])); [reflexivity|].
  intros a b. unfold SortCompare. rewrite compareFn_default; [reflexivity|].
  unfold recognised. simpl. intros [H|[H|[H|[H|[]]]]]; discriminate H.
Qed.

Lemma unsorted_projection_incl (ts : list Transaction)
    (categoryFilter dateFilter : jsstring) :
  incl (filteredAndSorted ts categoryFilter dateFilter []) ts.
Proof.
  intros t Ht. destruct (unsorted_projection ts categoryFilter dateFilter) as [E _].
  rewrite E in Ht. apply filter_In in Ht as [Ht _].
  now apply filter_In in Ht as [Ht _].
Qed.

Lemma date_key_valid (t : Transaction) :
  timeValue t <> None ->
  exists v, JsDate.parse (date t) = Some v /\ date_key t = v
            /\ - 2 ^ 52 < v < 2 ^ 52.
Proof.
  unfold date_key, timeValue. intros H.
  destruct (JsDate.parse (date t)) as [v|] eqn:E; [|contradiction].
  exists v. repeat split; try reflexivity; now apply parse_bound in E.
Qed.

Lemma date_asc_orders (l : list Transaction) :
  Forall (fun t => timeValue t <> None) l ->
  orders_by (compareFn (str "date-asc")) date_key l.
Proof.
  intros Hv a b Ha Hb. rewrite Forall_forall in Hv.
  destruct (date_key_valid a (Hv a Ha)) as (ta & Ea & -> & Hta).
  destruct (date_key_valid b (Hv b Hb)) as (tb & Eb & -> & Htb).
  unfold SortCompare.
  change (compareFn (str "date-asc") a b)
    with (JsDate.diff (JsDate.parse (date a)) (JsDate.parse (date b))).
  now apply diff_sign.
Qed.

Lemma date_desc_orders (l : list Transaction) :
  Forall (fun t => timeValue t <> None) l ->
  orders_by (compareFn (str "date-desc")) (fun t => - date_key t) l.
Proof.
  intros Hv a b Ha Hb. rewrite Forall_forall in Hv.
  destruct (date_key_valid a (Hv a Ha)) as (ta & Ea & -> & Hta).
  destruct (date_key_valid b (Hv b Hb)) as (tb & Eb & -> & Htb).
  unfold SortCompare.
  change (compareFn (str "date-desc") a b)
    with (JsDate.diff (JsDate.parse (date b)) (JsDate.parse (date a))).
  rewrite (diff_sign _ _ tb ta) by assumption.
  destruct (Z.ltb_spec ta tb), (Z.ltb_spec (- tb) (- ta)); lia || reflexivity.
Qed.

Lemma StronglySorted_impl (R R' : Transaction -> Transaction -> Prop)
    (l : list Transaction) :
  (forall a b, R a b -> R' a b) -> StronglySorted R l -> StronglySorted R' l.
Proof.
  intros HR H. induction H as [|x l Hs IH Hx]; constructor; [exact IH|].
  eapply Forall_impl; [|exact Hx]. intros b. apply HR.
Qed.

(** X10: when every date of the collection is a valid date, the option
    [date-asc] shows the rows from the earliest date to the latest and
    [date-desc] from the latest to the earliest; in both, rows of one and
    the same date keep the order that they have in the collection. *)
Theorem sorted_by_date (ts : list Transaction)
    (categoryFilter dateFilter : jsstring) :
  Forall (fun t => timeValue t <> None) ts ->
  StronglySorted (fun a b => date_key a <= date_key b)
    (filteredAndSorted ts categoryFilter dateFilter (str "date-asc"))
  /\ StronglySorted (fun a b => date_key b <= date_key a)
       (filteredAndSorted ts categoryFilter dateFilter (str "date-desc"))
  /\ forall k,
       filter (fun t => date_key t =? k)
         (filteredAndSorted ts categoryFilter dateFilter (str "date-asc"))
       = filter (fun t => date_key t =? k)
           (filteredAndSorted ts categoryFilter dateFilter [])
       /\ filter (fun t => date_key t =? k)
            (filteredAndSorted ts categoryFilter dateFilter (str "date-desc"))
          = filter (fun t => date_key t =? k)
              (filteredAndSorted ts categoryFilter dateFilter []).
Proof.
  intros Hv.
  assert (Hv' : Forall (fun t => timeValue t <> None)
                  (filteredAndSorted ts categoryFilter dateFilter [])).
  { rewrite Forall_forall in Hv |- *. intros t Ht.
    now apply Hv, (unsorted_projection_incl ts categoryFilter dateFilter). }
  rewrite (projection_sorts ts _ _ (str "date-asc")),
    (projection_sorts ts _ _ (str "date-desc")).
  split; [|split].
  - apply sort_sorted with (key := date_key). now apply date_asc_orders.
  - apply StronglySorted_impl with (R := fun a b => - date_key a <= - date_key b);
      [intros a b; lia|].
    apply sort_sorted with (key := fun t => - date_key t).
    now apply date_desc_orders.
  - intros k. split.
    + apply sort_stable with (key := date_key). now apply date_asc_orders.
    + rewrite (filter_ext (fun t => date_key t =? k)
                          (fun t => - date_key t =? - k)).
      2:{ intros t. destruct (Z.eqb_spec (date_key t) k),
            (Z.eqb_spec (- date_key t) (- k)); lia || reflexivity. }
      rewrite (filter_ext (fun t => date_key t =? k)
                          (fun t => - date_key t =? - k)).
      2:{ intros t. destruct (Z.eqb_spec (date_key t) k),
            (Z.eqb_spec (- date_key t) (- k)); lia || reflexivity. }
      apply sort_stable with (key := fun t => - date_key t).
      now apply date_desc_orders.
Qed.

Lemma sorted_by_date_witness :
  StronglySorted (fun a b => date_key b <= date_key a)
    (filteredAndSorted Sample.ledger (str "all") [] (str "date-desc")).
Proof.
  apply (sorted_by_date Sample.ledger (str "all") []).
  repeat constructor; discriminate.
Defined.

(** ** More on the summary *)

Lemma add_NaN_l (x : number) : Number.add Number.NaN x = Number.NaN.
Proof. reflexivity. Qed.

Lemma add_NaN_r (x : number) : Number.add x Number.NaN = Number.NaN.
Proof. now destruct x. Qed.

Lemma sum_amounts_NaN (c : jsstring) (ts : list Transaction) :
  sum_amounts c Number.NaN ts = Number.NaN.
Proof.
  induction ts as [|t ts IH]; simpl; [reflexivity|].
  destruct (category_dec t c); exact IH.
Qed.

Lemma sum_amounts_poisoned (c : jsstring) (ts : list Transaction)
    (t : Transaction) (acc : number) :
  In t ts -> category t = Some c -> amount t = Number.NaN ->
  sum_amounts c acc ts = Number.NaN.
Proof.
  intros Hin Hc Ha. revert acc; induction ts as [|u ts IH]; intros acc;
    [destruct Hin|].
  simpl. destruct Hin as [->|Hin]; [|now apply IH].
  destruct (category_dec t c); [|contradiction].
  rewrite Ha, add_NaN_r. apply sum_amounts_NaN.
Qed.

(** X11: one record whose amount is [NaN] turns the total of its category
    into [NaN], and the net balance with it, whatever the other records
    are. *)
Theorem nan_amount_poisons_summary (ts : list Transaction) (t : Transaction) :
  In t ts -> amount t = Number.NaN ->
  (category t = Some (str "income") ->
     totalIncome ts = Number.NaN /\ netBalance ts = Number.NaN)
  /\ (category t = Some (str "expense") ->
     totalExpenses ts = Number.NaN /\ netBalance ts = Number.NaN).
Proof.
  intros Hin Ha. split; intros Hc.
  - assert (E : totalIncome ts = Number.NaN).
    { unfold totalIncome, isIncome. rewrite fold_filter_sum.
      now apply sum_amounts_poisoned with (t := t). }
    split; [exact E|]. unfold netBalance. now rewrite E.
  - assert (E : totalExpenses ts = Number.NaN).
    { unfold totalExpenses, isExpense. rewrite fold_filter_sum.
      now apply sum_amounts_poisoned with (t := t). }
    split; [exact E|]. unfold netBalance. rewrite E.
    now destruct (totalIncome ts).
Qed.

Lemma nan_amount_poisons_summary_witness :
  totalExpenses (Sample.ledger ++ [of_form 3 Sample.empty_amount]) = Number.NaN
  /\ netBalance (Sample.ledger ++ [of_form 3 Sample.empty_amount]) = Number.NaN.
Proof.
  apply (nan_amount_poisons_summary
           (Sample.ledger ++ [of_form 3 Sample.empty_amount])
           (of_form 3 Sample.empty_amount)).
  - apply in_or_app. right. now left.
  - reflexivity.
  - reflexivity.
Defined.

(** X12: a record whose category is neither ["income"] nor ["expense"],
    the undefined category of an unchecked form included, counts in no
    total: the summary is that of the collection without it. *)
Theorem uncategorised_not_counted (A B : list Transaction) (t : Transaction) :
  category t <> Some (str "income") ->
  category t <> Some (str "expense") ->
  totalIncome (A ++ t :: B) = totalIncome (A ++ B)
  /\ totalExpenses (A ++ t :: B) = totalExpenses (A ++ B)
  /\ netBalance (A ++ t :: B) = netBalance (A ++ B).
Proof.
  intros Hi He.
  assert (EI : totalIncome (A ++ t :: B) = totalIncome (A ++ B)).
  { unfold totalIncome, isIncome. rewrite !fold_filter_sum, !sum_amounts_app.
    simpl. now destruct (category_dec t (str "income")). }
  assert (EE : totalExpenses (A ++ t :: B) = totalExpenses (A ++ B)).
  { unfold totalExpenses, isExpense. rewrite !fold_filter_sum, !sum_amounts_app.
    simpl. now destruct (category_dec t (str "expense")). }
  unfold netBalance. now rewrite EI, EE.
Qed.

Lemma uncategorised_not_counted_witness :
  totalIncome (Sample.ledger ++ of_form 3 Sample.blank :: [])
  = totalIncome (Sample.ledger ++ []).
Proof.
  apply (uncategorised_not_counted Sample.ledger [] (of_form 3 Sample.blank));
    discriminate.
Defined.

(** ** Numeric literals followed by white space *)

Lemma space_not_numeric (c : N) :
  JsString.is_space c = true ->
  Literal.is_digit c = false /\ (c =? 46)%N = false /\ (c =? 101)%N = false
  /\ (c =? 69)%N = false /\ (c =? 43)%N = false /\ (c =? 45)%N = false.
Proof.
  unfold JsString.is_space, Literal.is_digit. intros H.
  repeat rewrite orb_true_iff in H. repeat rewrite andb_true_iff in H.
  repeat rewrite N.eqb_eq in H. repeat rewrite N.leb_le in H.
  repeat split; try (apply N.eqb_neq; lia).
  apply andb_false_iff. rewrite !N.leb_gt. lia.
Qed.

Lemma span_app (p : N -> bool) (a ds r w : jsstring) :
  Literal.span p a = (ds, r) ->
  (r = [] -> match w with [] => True | c :: _ => p c = false end) ->
  Literal.span p (a ++ w) = (ds, r ++ w).
Proof.
  revert ds r; induction a as [|c a IH]; intros ds r H Hw; simpl in *.
  - injection H as <- <-. destruct w as [|c w]; [reflexivity|].
    simpl. now rewrite (Hw eq_refl).
  - destruct (p c) eqn:Hc.
    + destruct (Literal.span p a) as [ds' r'] eqn:E. injection H as <- <-.
      now rewrite (IH ds' r' eq_refl Hw).
    + injection H as <- <-. reflexivity.
Qed.

Lemma spaces_head (w : jsstring) :
  Forall (fun c => JsString.is_space c = true) w ->
  match w with [] => True | c :: _ => Literal.is_digit c = false end.
Proof.
  destruct w as [|c w]; [trivial|]. intros H. inversion H; subst.
  now apply space_not_numeric.
Qed.

Lemma exponent_part_app (r w : jsstring) (e : Z) :
  Literal.exponent_part r = (e, []) ->
  Forall (fun c => JsString.is_space c = true) w ->
  Literal.exponent_part (r ++ w) = (e, w).
Proof.
  intros H Hw. destruct r as [|c s1].
  - simpl in *. injection H as <-. destruct w as [|c w]; [reflexivity|].
    inversion Hw; subst.
    destruct (space_not_numeric c) as (_ & _ & E1 & E2 & _); trivial.
    simpl. now rewrite E1, E2.
  - cbn [Literal.exponent_part app] in *.
    destruct ((c =? 101) || (c =? 69))%N; [|discriminate].
    destruct s1 as [|sg s2].
    + simpl in H. discriminate.
    + cbn [app].
      destruct (sg =? 45)%N.
      * destruct (Literal.span Literal.is_digit s2) as [ds rr] eqn:E.
        destruct ds as [|d ds]; [discriminate|]. injection H as <- ->.
        rewrite (span_app _ _ _ _ w E); [reflexivity|].
        intros _. now apply spaces_head.
      * destruct (sg =? 43)%N.
        -- destruct (Literal.span Literal.is_digit s2) as [ds rr] eqn:E.
           destruct ds as [|d ds]; [discriminate|]. injection H as <- ->.
           rewrite (span_app _ _ _ _ w E); [reflexivity|].
           intros _. now apply spaces_head.
        -- destruct (Literal.span Literal.is_digit (sg :: s2)) as [ds rr] eqn:E.
           destruct ds as [|d ds]; [discriminate|]. injection H as <- ->.
           change (sg :: s2 ++ w) with ((sg :: s2) ++ w).
           rewrite (span_app _ _ _ _ w E); [reflexivity|].
           intros _. now apply spaces_head.
Qed.

Lemma strip_prefix_app (p a r w : jsstring) :
  JsString.strip_prefix p a = Some r ->
  JsString.strip_prefix p (a ++ w) = Some (r ++ w).
Proof.
  revert a; induction p as [|x p IH]; intros a H; simpl in *.
  - now injection H as <-.
  - destruct a as [|y a]; [discriminate|]. simpl.
    destruct (N.eqb x y); [now apply IH | discriminate].
Qed.

Lemma unsigned_prefix_app (a w : jsstring) (u : Literal.unsigned_literal) :
  Literal.unsigned_prefix a = Some (u, []) ->
  Forall (fun c => JsString.is_space c = true) w ->
  Literal.unsigned_prefix (a ++ w) = Some (u, w).
Proof.
  intros H Hw. unfold Literal.unsigned_prefix in *.
  destruct (JsString.strip_prefix (str "Infinity") a) as [r|] eqn:Ei.
  - injection H as <- ->. now rewrite (strip_prefix_app _ _ _ w Ei).
  - assert (Ei' : JsString.strip_prefix (str "Infinity") (a ++ w) = None).
    { destruct a as [|c a].
      - simpl in H. discriminate.
      - cbn [app].
        change (JsString.strip_prefix (str "Infinity") (c :: a ++ w))
          with (if N.eqb 73 c
                then JsString.strip_prefix (str "nfinity") (a ++ w)
                else None).
        destruct (N.eqb 73 c) eqn:Ec; [|reflexivity].
        apply N.eqb_eq in Ec. subst c. exfalso. simpl in H. discriminate. }
    rewrite Ei'. clear Ei Ei'.
    destruct (Literal.span Literal.is_digit a) as [int_ds r1] eqn:E1.
    rewrite (span_app _ _ _ _ w E1) by (intros _; now apply spaces_head).
    destruct r1 as [|c1 r1'].
    + (* the digits reach the end *)
      destruct int_ds as [|d ds]; [discriminate|].
      cbn [Literal.exponent_part] in H. injection H as <-.
      cbn [app]. destruct w as [|c w]; [reflexivity|].
      inversion Hw; subst.
      destruct (space_not_numeric c) as (_ & E46 & E101 & E69 & _); trivial.
      rewrite E46. cbn [Literal.exponent_part]. now rewrite E101, E69.
    + cbn [app]. destruct (c1 =? 46)%N.
      * destruct (Literal.span Literal.is_digit r1') as [fs r2] eqn:E2.
        rewrite (span_app _ _ _ _ w E2) by (intros _; now apply spaces_head).
        destruct (Literal.exponent_part r2) as [e r3] eqn:E3.
        assert (r3 = []) as ->.
        { destruct int_ds, fs; try discriminate; now injection H. }
        rewrite (exponent_part_app _ w _ E3 Hw).
        destruct int_ds, fs; try discriminate; now injection H as <-.
      * destruct (Literal.exponent_part (c1 :: r1')) as [e r3] eqn:E3.
        assert (r3 = []) as ->.
        { destruct int_ds; try discriminate; now injection H. }
        change (c1 :: r1' ++ w) with ((c1 :: r1') ++ w).
        rewrite (exponent_part_app _ w _ E3 Hw).
        destruct int_ds; try discriminate; now injection H as <-.
Qed.

Lemma decimal_prefix_app (a w : jsstring) (x : number) :
  Literal.decimal_prefix a = Some (x, []) ->
  Forall (fun c => JsString.is_space c = true) w ->
  Literal.decimal_prefix (a ++ w) = Some (x, w).
Proof.
  intros H Hw. unfold Literal.decimal_prefix in *.
  destruct a as [|c a].
  - cbn in H. discriminate.
  - cbn [app]. destruct (c =? 45)%N.
    + destruct (Literal.unsigned_prefix a) as [[u r]|] eqn:E; [|discriminate].
      injection H as <- ->. now rewrite (unsigned_prefix_app _ w _ E Hw).
    + destruct (c =? 43)%N.
      * destruct (Literal.unsigned_prefix a) as [[u r]|] eqn:E; [|discriminate].
        injection H as <- ->. now rewrite (unsigned_prefix_app _ w _ E Hw).
      * destruct (Literal.unsigned_prefix (c :: a)) as [[u r]|] eqn:E;
          [|discriminate].
        injection H as <- ->.
        change (c :: a ++ w) with ((c :: a) ++ w).
        now rewrite (unsigned_prefix_app _ w _ E Hw).
Qed.

Lemma trimEnd_split_spaces (s : jsstring) :
  exists w, s = JsString.trimEnd s ++ w
            /\ Forall (fun c => JsString.is_space c = true) w.
Proof.
  unfold JsString.trimEnd.
  destruct (trimStart_split (rev s)) as [w [E F]].
  exists (rev w). split.
  - rewrite <- rev_app_distr, <- E. now rewrite rev_involutive.
  - apply Forall_forall. intros c Hc. apply in_rev in Hc.
    rewrite Forall_forall in F. now apply F.
Qed.

Lemma trimStart_trim (s : jsstring) :
  exists w, JsString.trimStart s = JsString.trim s ++ w
            /\ Forall (fun c => JsString.is_space c = true) w.
Proof. apply trimEnd_split_spaces. Qed.

Lemma trim_blank (s : jsstring) :
  JsString.trim s = [] -> JsString.trimStart s = [].
Proof.
  intros H. destruct (trimStart_trim s) as (w & E & F). rewrite H in E.
  simpl in E. destruct w as [|c w]; [exact E|].
  inversion F; subst. apply trimStart_head in E. congruence.
Qed.

Lemma non_decimal_reads_zero (s' w : jsstring) (x : number) :
  Literal.non_decimal s' = Some x ->
  exists r, Literal.decimal_prefix (s' ++ w) = Some (Number.zero, r).
Proof.
  unfold Literal.non_decimal.
  destruct s' as [|z [|k ds]]; try discriminate.
  destruct (N.eqb_spec z 48) as [->|]; [|discriminate].
  intros H.
  assert (Hk : In k [120; 88; 111; 79; 98; 66]%N).
  { destruct (N.eqb_spec k 120) as [->|]; [simpl; tauto|].
    destruct (N.eqb_spec k 88) as [->|]; [simpl; tauto|].
    destruct (N.eqb_spec k 111) as [->|]; [simpl; tauto|].
    destruct (N.eqb_spec k 79) as [->|]; [simpl; tauto|].
    destruct (N.eqb_spec k 98) as [->|]; [simpl; tauto|].
    destruct (N.eqb_spec k 66) as [->|]; [simpl; tauto|].
    simpl in H. discriminate. }
  clear H. simpl in Hk.
  destruct Hk as [<-|[<-|[<-|[<-|[<-|[<-|[]]]]]]]; eexists; reflexivity.
Qed.

Lemma leb_false_above (x : number) :
  Number.is_nan x = false -> Number.leb x Number.zero = false ->
  Number.ltb Number.zero x = true.
Proof. destruct x as [[|]|[|]| |[|] m e]; simpl; try discriminate; reflexivity. Qed.

(** What [validateForm] lets through as an amount. *)
Lemma accepted_amount (s : jsstring) :
  isNaN s = false ->
  Number.leb (parseFloat (OfString s)) Number.zero = false ->
  (JsString.trim s = [] /\ parseFloat (OfString s) = Number.NaN)
  \/ (JsString.trim s <> [] /\ parseFloat (OfString s) = ToNumber s
      /\ Number.ltb Number.zero (parseFloat (OfString s)) = true).
Proof.
  unfold isNaN, ToNumber. intros Hn Hl.
  destruct (JsString.trim s) as [|c s'] eqn:Et.
  - left. split; [reflexivity|]. unfold parseFloat.
    now rewrite (trim_blank s Et).
  - right. split; [discriminate|].
    destruct (trimStart_trim s) as (w & E & F). rewrite Et in E.
    destruct (Literal.non_decimal (c :: s')) as [x|] eqn:End.
    + exfalso. destruct (non_decimal_reads_zero _ w _ End) as [r Hr].
      unfold parseFloat in Hl. rewrite E, Hr in Hl. discriminate.
    + destruct (Literal.decimal_prefix (c :: s')) as [[x [|? ?]]|] eqn:Ed;
        try discriminate.
      assert (Ep : parseFloat (OfString s) = x).
      { unfold parseFloat. now rewrite E, (decimal_prefix_app _ w _ Ed F). }
      rewrite Ep in *. split; [reflexivity|]. now apply leb_false_above.
Qed.

(** ** Identifiers written out and read back *)

Lemma digit_codes_digits (d : Decimal.uint) :
  Forall (fun c => Literal.is_digit c = true) (digit_codes d).
Proof. induction d; simpl; constructor; trivial. Qed.

Lemma digit_codes_value (d d' : Decimal.uint) :
  fold_left (fun acc c => (acc * 10 + Literal.digit_value c)%N) (digit_codes d)
    (DecimalPos.Unsigned.of_lu d')
  = DecimalPos.Unsigned.of_lu (Decimal.revapp d d').
Proof.
  revert d'; induction d; intros d'; cbn [digit_codes fold_left Decimal.revapp];
    [reflexivity|..]; rewrite <- IHd; f_equal; cbn [DecimalPos.Unsigned.of_lu];
    change (Literal.digit_value _) with 0%N
    || change (Literal.digit_value _) with 1%N
    || change (Literal.digit_value _) with 2%N
    || change (Literal.digit_value _) with 3%N
    || change (Literal.digit_value _) with 4%N
    || change (Literal.digit_value _) with 5%N
    || change (Literal.digit_value _) with 6%N
    || change (Literal.digit_value _) with 7%N
    || change (Literal.digit_value _) with 8%N
    || change (Literal.digit_value _) with 9%N; lia.
Qed.

Lemma value_in_digit_codes (p : positive) :
  Literal.value_in 10 (digit_codes (Pos.to_uint p)) = Npos p.
Proof.
  unfold Literal.value_in.
  change 0%N with (DecimalPos.Unsigned.of_lu Decimal.Nil).
  rewrite digit_codes_value. fold (Decimal.rev (Pos.to_uint p)).
  rewrite <- DecimalPos.Unsigned.of_uint_alt. apply DecimalPos.Unsigned.of_to.
Qed.

Lemma span_all (p : N -> bool) (l : jsstring) :
  Forall (fun c => p c = true) l -> Literal.span p l = (l, []).
Proof.
  induction 1 as [|c l Hc _ IH]; simpl; [reflexivity|]. now rewrite Hc, IH.
Qed.

Lemma digit_not_space (c : N) :
  Literal.is_digit c = true ->
  JsString.is_space c = false /\ (c =? 45)%N = false /\ (c =? 43)%N = false
  /\ (c =? 120)%N = false /\ (c =? 88)%N = false.
Proof.
  unfold Literal.is_digit, JsString.is_space. intros H.
  apply andb_true_iff in H as [H1 H2]. apply N.leb_le in H1, H2.
  repeat split; try (apply N.eqb_neq; lia).
  repeat (apply orb_false_iff; split); try (apply N.eqb_neq; lia);
    apply andb_false_iff; rewrite !N.leb_gt; lia.
Qed.

(** [parseInt] on a run of decimal digits, after an optional minus. *)
Lemma parseInt_digits (neg : bool) (l : jsstring) :
  l <> [] -> Forall (fun c => Literal.is_digit c = true) l ->
  parseInt ((if neg then [45%N] else []) ++ l)
  = Some (Number.round_Z (cond_Zopp neg (Z.of_N (Literal.value_in 10 l)))).
Proof.
  intros Hne Hd. destruct l as [|c l]; [contradiction|].
  inversion Hd as [|? ? Hc Hl]; subst.
  destruct (digit_not_space c Hc) as (Hs & H45 & H43 & _).
  assert (Hradix : forall k, Literal.is_digit k = true ->
            ((c =? 48) && ((k =? 120) || (k =? 88)))%N = false).
  { intros k Hk. destruct (digit_not_space k Hk) as (_ & _ & _ & H120 & H88).
    rewrite H120, H88. simpl. now rewrite andb_false_r. }
  pose proof (span_all _ _ Hd) as Hspan.
  unfold parseInt. destruct neg; cbn [app JsString.trimStart].
  - change (JsString.is_space 45%N) with false. cbv iota.
    change (45 =? 45)%N with true. cbv iota.
    destruct l as [|k l]; [now rewrite Hspan|].
    inversion Hl; subst. rewrite Hradix by assumption. now rewrite Hspan.
  - rewrite Hs, H45, H43.
    destruct l as [|k l]; [now rewrite Hspan|].
    inversion Hl; subst. rewrite Hradix by assumption. now rewrite Hspan.
Qed.

Lemma to_uint_nonnil' (p : positive) : digit_codes (Pos.to_uint p) <> [].
Proof.
  pose proof (DecimalPos.Unsigned.to_uint_nonnil p) as H.
  destruct (Pos.to_uint p); simpl; congruence.
Qed.

(** An identifier written out and read back is the same identifier. *)
Lemma parseInt_ToString (n : Z) :
  - Number.exact_limit <= n <= Number.exact_limit ->
  parseInt (ToString_int n) = Some n.
Proof.
  intros H. destruct n as [|p|p]; [reflexivity| |].
  - change (ToString_int (Z.pos p)) with ([] ++ digit_codes (Pos.to_uint p)).
    rewrite (parseInt_digits false) by
      (apply to_uint_nonnil' || apply digit_codes_digits).
    rewrite value_in_digit_codes. cbn [cond_Zopp Z.of_N].
    now rewrite round_Z_safe.
  - change (ToString_int (Z.neg p)) with ([45%N] ++ digit_codes (Pos.to_uint p)).
    rewrite (parseInt_digits true) by
      (apply to_uint_nonnil' || apply digit_codes_digits).
    rewrite value_in_digit_codes. cbn [cond_Zopp Z.of_N Z.opp].
    now rewrite round_Z_safe.
Qed.

(** ** What validation lets into the store *)

(** X13: an amount field that passes [validateForm] is either blank, and
    the constructor then records [NaN], or a numeric literal that
    [Number] and [parseFloat] read alike, and the constructor then
    records a Number above 0. *)
Theorem validated_amount (formData : FormData) (i : Z) :
  amount_rejected formData = false ->
  (JsString.trim (fd_amount formData) = []
   /\ amount (of_form i formData) = Number.NaN)
  \/ (JsString.trim (fd_amount formData) <> []
      /\ amount (of_form i formData) = ToNumber (fd_amount formData)
      /\ above_zero (amount (of_form i formData))).
Proof.
  unfold amount_rejected. intros H. apply orb_false_iff in H as [Hn Hl].
  now apply accepted_amount.
Qed.

Lemma validated_amount_witness :
  (JsString.trim (fd_amount Sample.rent) = []
   /\ amount (of_form 3 Sample.rent) = Number.NaN)
  \/ (JsString.trim (fd_amount Sample.rent) <> []
      /\ amount (of_form 3 Sample.rent) = ToNumber (fd_amount Sample.rent)
      /\ above_zero (amount (of_form 3 Sample.rent))).
Proof. apply validated_amount. reflexivity. Defined.

Lemma of_form_validated (today : Z) (formData : FormData) (i : Z) :
  fst (validateForm today formData) = true -> validated (of_form i formData).
Proof.
  rewrite validateForm_collects. cbn [fst]. intros H.
  apply negb_true_iff in H.
  apply orb_false_iff in H as [H Hsc]. apply orb_false_iff in H as [H Hc].
  apply orb_false_iff in H as [Ha Hd].
  unfold validated. cbn [of_form new_Transaction category subCategory date].
  split; [now apply negb_false_iff in Hc|].
  split; [now apply negb_false_iff in Hsc|].
  split.
  - unfold date_rejected in Hd. apply orb_false_iff in Hd as [Hd _].
    now apply negb_false_iff in Hd.
  - unfold amount_rejected in Ha. apply orb_false_iff in Ha as [Hn Hl].
    destruct (accepted_amount _ Hn Hl) as [[_ E]|(_ & _ & E)];
      [now right | now left].
Qed.

Lemma ui_step_validated (e : ui_event) (s : MoneyManager) :
  Forall validated (transactions s) ->
  Forall validated (transactions (ui_step e s)).
Proof.
  intros H. destruct e as [today f|c tg]; cbn [ui_step].
  - unfold submit.
    destruct (fst (validateForm today f)) eqn:Hv; [|exact H].
    destruct (JsString.truthy (fd_id f)).
    + destruct (parseInt (fd_id f)) as [i|]; [|exact H].
      unfold updateTransaction.
      destruct (findIndex i (transactions s)) as [n|]; [|exact H].
      cbn [fst transactions]. apply Forall_forall. intros t Ht.
      apply set_at_In in Ht as [->|Ht].
      * now apply of_form_validated with (today := today).
      * rewrite Forall_forall in H. now apply H.
    + cbn [addTransaction fst transactions]. apply Forall_app. split; [exact H|].
      constructor; [|constructor].
      now apply of_form_validated with (today := today).
  - unfold click. destruct tg as [d|d|]; try exact H.
    destruct (parseInt d) as [i|].
    + unfold deleteTransaction. destruct c; [|exact H].
      cbn [fst transactions]. apply Forall_forall. intros t Ht.
      apply filter_In in Ht as [Ht _]. rewrite Forall_forall in H. now apply H.
    + destruct c; exact H.
Qed.

(** X14: a store that is only ever changed through the form and the
    table holds validated records only: each has a category, a
    sub-category and a date that are not empty, and an amount above 0, or
    [NaN]. *)
Theorem ui_run_validated (es : list ui_event) (s : MoneyManager) :
  Forall validated (transactions s) ->
  Forall validated (transactions (ui_run es s)).
Proof.
  revert s; induction es as [|e es IH]; intros s H; [exact H|].
  cbn [ui_run fold_left]. apply IH. now apply ui_step_validated.
Qed.

Lemma ui_run_validated_witness :
  List.map id (transactions (ui_run Sample.page_session Sample.store)) = [2; 3]
  /\ Forall validated (transactions (ui_run Sample.page_session Sample.store)).
Proof.
  split; [vm_compute; reflexivity|].
  apply (ui_run_validated Sample.page_session Sample.store).
  unfold Sample.store, Sample.ledger. cbn [transactions].
  constructor; [|constructor; [|constructor]];
    (split; [reflexivity|]; split; [reflexivity|]; split; [reflexivity|];
     left; reflexivity).
Defined.

(** One event of the page is at most one operation of the store. *)
Lemma ui_step_as_run (e : ui_event) (s : MoneyManager) :
  exists ops, ui_step e s = run ops s /\ adds ops <= submits [e].
Proof.
  destruct e as [today f|c tg]; cbn [ui_step submits].
  - unfold submit. destruct (fst (validateForm today f)).
    + destruct (JsString.truthy (fd_id f)).
      * destruct (parseInt (fd_id f)) as [i|].
        -- exists [Update i f]. split; [reflexivity | cbn [adds]; lia].
        -- exists []. split; [reflexivity | cbn [adds]; lia].
      * exists [Add f]. split; [reflexivity | cbn [adds]; lia].
    + exists []. split; [reflexivity | cbn [adds]; lia].
  - unfold click. destruct tg as [d|d|].
    + exists []. split; [reflexivity | cbn [adds]; lia].
    + destruct (parseInt d) as [i|].
      * exists [Delete c i]. split; [reflexivity | cbn [adds]; lia].
      * exists []. split; [|cbn [adds]; lia].
        destruct c; [now rewrite store_eta | reflexivity].
    + exists []. split; [reflexivity | cbn [adds]; lia].
Qed.

Lemma submits_nonneg (es : list ui_event) : 0 <= submits es.
Proof. induction es as [|[]]; cbn [submits]; lia. Qed.

(** X15: through the form and the table the store stays well formed, as
    long as the counter stays in the safe range; the counter never goes
    back and rises by at most one for each submit. *)
Theorem ui_run_well_formed (es : list ui_event) (s : MoneyManager) :
  well_formed s ->
  - Number.exact_limit <= nextId s ->
  nextId s + submits es <= Number.exact_limit ->
  well_formed (ui_run es s)
  /\ nextId s <= nextId (ui_run es s) <= nextId s + submits es.
Proof.
  revert s; induction es as [|e es IH]; intros s Hwf Hlo Hhi.
  - cbn [ui_run fold_left submits]. split; [exact Hwf | lia].
  - destruct (ui_step_as_run e s) as (ops & E & Ha).
    pose proof (submits_nonneg es). pose proof (adds_nonneg ops).
    assert (Hs : submits (e :: es) = submits [e] + submits es)
      by (destruct e; cbn [submits]; lia).
    rewrite Hs in *.
    assert (Hn : nextId (ui_step e s) = nextId s + adds ops)
      by (rewrite E; apply nextId_run; lia).
    cbn [ui_run fold_left].
    destruct (IH (ui_step e s)) as [Hwf' Hb]; try lia.
    + rewrite E. apply well_formed_run; trivial. lia.
    + split; [exact Hwf' | unfold ui_run in Hb; lia].
Qed.

Lemma ui_run_well_formed_witness :
  well_formed (ui_run Sample.page_session Sample.store)
  /\ nextId Sample.store <= nextId (ui_run Sample.page_session Sample.store)
     <= nextId Sample.store + submits Sample.page_session.
Proof.
  apply ui_run_well_formed.
  - split.
    + repeat constructor; simpl; intuition discriminate.
    + simpl. intros i [<-|[<-|[]]]; reflexivity.
  - discriminate.
  - discriminate.
Defined.

(** ** Rows, buttons and the modal *)

Lemma find_unique (ts : list Transaction) (t : Transaction) :
  NoDup (List.map id ts) -> In t ts -> find (id t) ts = Some t.
Proof.
  induction ts as [|u ts IH]; intros Hnd Hin; [destruct Hin|].
  simpl in Hnd. inversion Hnd as [|? ? Hu Hnd']; subst.
  destruct Hin as [->|Hin]; [now apply find_head|].
  simpl. destruct (Z.eqb_spec (id u) (id t)) as [E|NE].
  - exfalso. apply Hu. rewrite E. now apply in_map.
  - now apply IH.
Qed.

Lemma split_unique (ts : list Transaction) (t : Transaction) :
  NoDup (List.map id ts) -> In t ts ->
  exists l1 l2,
    ts = l1 ++ t :: l2
    /\ ~ In (id t) (List.map id l1) /\ ~ In (id t) (List.map id l2).
Proof.
  intros Hnd Hin. destruct (in_split _ _ Hin) as (l1 & l2 & ->).
  exists l1, l2. split; [reflexivity|].
  rewrite map_app in Hnd. simpl in Hnd. apply NoDup_remove_2 in Hnd.
  split; intros H; apply Hnd, in_or_app; tauto.
Qed.

Lemma ToString_int_truthy (n : Z) : JsString.truthy (ToString_int n) = true.
Proof.
  destruct n as [|p|p]; try reflexivity. simpl.
  pose proof (to_uint_nonnil' p). now destruct (digit_codes (Pos.to_uint p)).
Qed.

(** X16: on a store with unique identifiers in the safe range, the edit
    button of the row of [t] opens the modal on [t] itself, and a valid
    form submitted from that modal replaces [t] where it stands by the
    constructor's record for the identifier of [t] and the form; the other
    records and the counter stay. *)
Theorem edit_row (s : MoneyManager) (t : Transaction) (today : Z)
    (formData : FormData) :
  NoDup (ids s) ->
  In t (transactions s) ->
  - Number.exact_limit <= id t <= Number.exact_limit ->
  transactionToEdit (row_data_id t) s = Some t
  /\ (fd_id formData = showModal_id (transactionToEdit (row_data_id t) s) ->
      fst (validateForm today formData) = true ->
      exists l1 l2,
        transactions s = l1 ++ t :: l2
        /\ fst (submit today formData s)
           = {| transactions := l1 ++ of_form (id t) formData :: l2;
                nextId := nextId s |}).
Proof.
  intros Hnd Hin Hr.
  assert (Hopen : transactionToEdit (row_data_id t) s = Some t).
  { unfold transactionToEdit, row_data_id.
    rewrite parseInt_ToString by exact Hr. now apply find_unique. }
  split; [exact Hopen|]. rewrite Hopen. cbn [showModal_id].
  intros Hid Hv.
  destruct (split_unique _ _ Hnd Hin) as (l1 & l2 & E & H1 & _).
  exists l1, l2. split; [exact E|].
  unfold submit. rewrite Hv, Hid, ToString_int_truthy.
  rewrite parseInt_ToString by exact Hr.
  unfold updateTransaction. rewrite E.
  rewrite findIndex_first by (trivial; reflexivity).
  cbn [fst]. now rewrite set_at_middle.
Qed.

Lemma edit_row_witness :
  transactionToEdit (row_data_id (of_form 2 Sample.groceries)) Sample.store
  = Some (of_form 2 Sample.groceries).
Proof.
  apply (edit_row Sample.store (of_form 2 Sample.groceries) Sample.nov_3_2026
           (Sample.editing (of_form 2 Sample.groceries) Sample.rent)).
  - repeat constructor; simpl; intuition discriminate.
  - right. now left.
  - split; discriminate.
Defined.

(** X17: on a store with unique identifiers in the safe range, a
    confirmed click on the delete button of the row of [t] removes [t] and
    no other record; declined, it changes nothing and asks for no save. *)
Theorem delete_row (s : MoneyManager) (t : Transaction) :
  NoDup (ids s) ->
  In t (transactions s) ->
  - Number.exact_limit <= id t <= Number.exact_limit ->
  (exists l1 l2,
     transactions s = l1 ++ t :: l2
     /\ click true (delete_btn (row_data_id t)) s
        = ({| transactions := l1 ++ l2; nextId := nextId s |},
           [saveTransactions (l1 ++ l2); renderTransactions; updateSummary]))
  /\ click false (delete_btn (row_data_id t)) s = (s, []).
Proof.
  intros Hnd Hin Hr. unfold click, row_data_id.
  rewrite parseInt_ToString by exact Hr. split; [|reflexivity].
  destruct (split_unique _ _ Hnd Hin) as (l1 & l2 & E & H1 & H2).
  exists l1, l2. split; [exact E|].
  unfold deleteTransaction. rewrite E, filter_app. cbn [filter].
  rewrite Z.eqb_refl. cbn [negb]. now rewrite !filter_fresh.
Qed.

Lemma delete_row_witness :
  click false (delete_btn (row_data_id (of_form 1 Sample.salary))) Sample.store
  = (Sample.store, []).
Proof.
  apply (delete_row Sample.store (of_form 1 Sample.salary)).
  - repeat constructor; simpl; intuition discriminate.
  - now left.
  - split; discriminate.
Defined.

(** ** Whole numbers as binary64 values *)

Lemma iter_pos_eq {A : Type} (f : A -> A) (n : positive) (x : A) :
  iter_pos f n x = Pos.iter f x n.
Proof.
  revert x; induction n as [n IH|n IH|]; intros x; simpl.
  - rewrite !IH. now rewrite !Pos.iter_swap.
  - now rewrite !IH.
  - reflexivity.
Qed.

Lemma Zpos_iter_xO (p k : positive) :
  Zpos (Pos.iter xO p k) = Zpos p * 2 ^ Zpos k.
Proof.
  induction k as [|k IH] using Pos.peano_ind.
  - simpl. lia.
  - rewrite Pos.iter_succ, Pos2Z.inj_succ, Z.pow_succ_r by lia.
    rewrite Pos2Z.inj_xO, IH. lia.
Qed.

(** Shifting right the zeros that a shift to the left brought in. *)
Lemma shr_exact (q j : positive) :
  iter_pos shr_1 j {| shr_m := Zpos (Pos.iter xO q j); shr_r := false; shr_s := false |}
  = {| shr_m := Zpos q; shr_r := false; shr_s := false |}.
Proof.
  rewrite iter_pos_eq.
  induction j as [|j IH] using Pos.peano_ind.
  - reflexivity.
  - rewrite (Pos.iter_succ_r j _ shr_1), (Pos.iter_succ j _ xO).
    cbn [shr_1 orb]. exact IH.
Qed.

(** The binary64 value of a positive integer below [2 ^ 53], written out. *)
Lemma binary_round_canonical (s : bool) (p : positive) :
  Zpos p < 2 ^ 53 ->
  binary_round 53 1024 s p 0
  = S754_finite s (Pos.shiftl p (Z.to_N (53 - Zpos (digits2_pos p))))
      (Zpos (digits2_pos p) - 53).
Proof.
  intros H. apply digits2_pos_bound in H. unfold binary_round.
  assert (Hf : fexp 53 1024 (Zpos (digits2_pos p) + 0) = Zpos (digits2_pos p) - 53).
  { unfold fexp, emin. lia. }
  rewrite Hf. unfold shl_align.
  destruct (Zpos (digits2_pos p) - 53 - 0) as [|k|k] eqn:Ek; try lia.
  - replace (53 - Zpos (digits2_pos p)) with 0 by lia. cbn [Z.to_N Pos.shiftl].
    replace (Zpos (digits2_pos p) - 53) with 0 by lia.
    apply binary_round_aux_canonical; [|lia]. rewrite Hf. lia.
  - replace (53 - Zpos (digits2_pos p)) with (Zpos k) by lia.
    cbn [Z.to_N Pos.shiftl].
    apply binary_round_aux_canonical; [|lia].
    rewrite digits2_pos_iter. unfold fexp, emin. lia.
Qed.

Lemma binary_round_scaled (s : bool) (p K : positive) :
  Zpos p < 2 ^ 53 ->
  binary_round 53 1024 s (Pos.iter xO p K) (Zneg K) = binary_round 53 1024 s p 0.
Proof.
  intros H. rewrite (binary_round_canonical s p H).
  apply digits2_pos_bound in H. set (d := digits2_pos p) in *.
  unfold binary_round. rewrite digits2_pos_iter. fold d.
  assert (Hf : fexp 53 1024 (Zpos (d + K) + Zneg K) = Zpos d - 53).
  { unfold fexp, emin. lia. }
  rewrite Hf. unfold shl_align.
  destruct (Zpos d - 53 - Zneg K) as [|j|j] eqn:Ej.
  - (* the shift is the canonical one *)
    replace (53 - Zpos d) with (Zpos K) by lia. cbn [Z.to_N Pos.shiftl].
    replace (Zpos d - 53) with (Zneg K) by lia.
    apply binary_round_aux_canonical; [|lia].
    rewrite digits2_pos_iter. fold d. unfold fexp, emin. lia.
  - (* too far to the left: the rounding shifts back, exactly *)
    unfold binary_round_aux, shr_fexp. cbn [Zdigits2 shr_record_of_loc].
    rewrite digits2_pos_iter. fold d. rewrite Hf.
    replace (Zpos d - 53 - Zneg K) with (Zpos j) by lia. cbn [shr].
    destruct (Z.eq_dec (Zpos d) 53) as [E53|N53].
    + assert (K = j) as -> by lia.
      rewrite shr_exact.
      cbn [shr_m loc_of_shr_record round_nearest_even Zdigits2 shr_record_of_loc].
      fold d.
      replace (fexp 53 1024 (Zpos d + (Zneg j + Zpos j)) - (Zneg j + Zpos j))
        with 0 by (unfold fexp, emin; lia).
      cbn [shr shr_m].
      replace (Zneg j + Zpos j) with (Zpos d - 53) by lia.
      replace (53 - Zpos d) with 0 by lia. cbn [Z.to_N Pos.shiftl].
      assert (El : (Zpos d - 53 <=? 1024 - 53) = true) by (apply Z.leb_le; lia).
      now rewrite El.
    + assert (Hk : exists k, Zpos k = Zpos K - Zpos j) by
        (exists (Z.to_pos (Zpos K - Zpos j)); lia).
      destruct Hk as [k Hk].
      assert (EK : K = (j + k)%positive) by lia.
      rewrite EK, Pos.iter_add, shr_exact.
      cbn [shr_m loc_of_shr_record round_nearest_even Zdigits2 shr_record_of_loc].
      rewrite digits2_pos_iter. fold d.
      replace (fexp 53 1024 (Zpos (d + k) + (Zneg (j + k) + Zpos j))
               - (Zneg (j + k) + Zpos j)) with 0 by (unfold fexp, emin; lia).
      cbn [shr shr_m].
      replace (53 - Zpos d) with (Zpos k) by lia. cbn [Z.to_N Pos.shiftl].
      replace (Zneg (j + k) + Zpos j) with (Zpos d - 53) by lia.
      assert (El : (Zpos d - 53 <=? 1024 - 53) = true) by (apply Z.leb_le; lia).
      now rewrite El.
  - (* not far enough: the alignment shifts on *)
    replace (53 - Zpos d) with (Zpos (K + j)) by lia. cbn [Z.to_N Pos.shiftl].
    rewrite (Pos.add_comm K j), Pos.iter_add.
    apply binary_round_aux_canonical; [|lia].
    rewrite <- Pos.iter_add.
    rewrite digits2_pos_iter. fold d. unfold fexp, emin. lia.
Qed.

Lemma normalize_scaled (z k : Z) :
  - 2 ^ 53 < z < 2 ^ 53 -> 0 <= k ->
  binary_normalize 53 1024 (z * 2 ^ k) (- k) false = Number.of_Z z.
Proof.
  intros Hz Hk. unfold Number.of_Z, Number.prec, Number.emax.
  destruct k as [|K|K]; [| |lia].
  - now rewrite Z.mul_1_r.
  - destruct z as [|p|p].
    + reflexivity.
    + rewrite <- Zpos_iter_xO. cbn [binary_normalize Z.opp].
      apply binary_round_scaled. lia.
    + replace (Zneg p * 2 ^ Zpos K) with (- (Zpos p * 2 ^ Zpos K)) by lia.
      rewrite <- Zpos_iter_xO. cbn [binary_normalize Z.opp].
      apply binary_round_scaled. lia.
Qed.

Lemma of_Z_finite (s : bool) (p : positive) :
  Zpos p < 2 ^ 53 ->
  exists m e,
    binary_round 53 1024 s p 0 = S754_finite s m e
    /\ e <= 0 /\ Zpos m = Zpos p * 2 ^ (- e).
Proof.
  intros H. rewrite (binary_round_canonical s p H).
  apply digits2_pos_bound in H.
  eexists _, _. split; [reflexivity|]. split; [lia|].
  replace (- (Zpos (digits2_pos p) - 53)) with (53 - Zpos (digits2_pos p)) by lia.
  destruct (53 - Zpos (digits2_pos p)) as [|k|k] eqn:E; try lia.
  - simpl. lia.
  - cbn [Z.to_N Pos.shiftl]. apply Zpos_iter_xO.
Qed.

(** The Number of a whole number other than 0, below [2 ^ 53] in
    absolute value: a finite value of its sign, with its exact
    magnitude. *)
Lemma of_Z_nonzero (z : Z) :
  z <> 0 -> - 2 ^ 53 < z < 2 ^ 53 ->
  exists m e,
    Number.of_Z z = S754_finite (z <? 0) m e
    /\ e <= 0 /\ cond_Zopp (z <? 0) (Zpos m) = z * 2 ^ (- e).
Proof.
  intros Hz H. unfold Number.of_Z, Number.prec, Number.emax.
  destruct z as [|p|p]; [contradiction| |]; cbn [binary_normalize Z.ltb Z.compare].
  - destruct (of_Z_finite false p) as (m & e & -> & He & Em); [lia|].
    exists m, e. cbn [cond_Zopp]. auto.
  - destruct (of_Z_finite true p) as (m & e & -> & He & Em); [lia|].
    exists m, e. cbn [cond_Zopp]. rewrite Em. repeat split; trivial; lia.
Qed.

Lemma aligned_value (m : positive) (e ez : Z) :
  ez <= e -> Zpos (fst (shl_align m e ez)) = Zpos m * 2 ^ (e - ez).
Proof.
  intros H. unfold shl_align.
  destruct (ez - e) as [|d|d] eqn:E; try lia; cbn [fst].
  - replace (e - ez) with 0 by lia. simpl. lia.
  - replace (e - ez) with (Zpos d) by lia. apply Zpos_iter_xO.
Qed.

Lemma aligned_signed (s : bool) (m : positive) (e ez z : Z) :
  ez <= e -> e <= 0 -> cond_Zopp s (Zpos m) = z * 2 ^ (- e) ->
  cond_Zopp s (Zpos (fst (shl_align m e ez))) = z * 2 ^ (- ez).
Proof.
  intros H He Em. rewrite aligned_value by exact H.
  replace (- ez) with (- e + (e - ez)) by lia.
  rewrite Z.pow_add_r, Z.mul_assoc, <- Em by lia.
  destruct s; cbn [cond_Zopp]; lia.
Qed.

(** On whole numbers that stay below [2 ^ 53] in absolute value the
    addition and the subtraction of Numbers are those of the integers. *)
Lemma add_of_Z (a b : Z) :
  - 2 ^ 53 < a < 2 ^ 53 -> - 2 ^ 53 < b < 2 ^ 53 ->
  - 2 ^ 53 < a + b < 2 ^ 53 ->
  Number.add (Number.of_Z a) (Number.of_Z b) = Number.of_Z (a + b).
Proof.
  intros Ha Hb H.
  destruct (Z.eq_dec a 0) as [->|Na]; [|destruct (Z.eq_dec b 0) as [->|Nb]].
  - cbn [Z.add]. destruct (Z.eq_dec b 0) as [->|Nb]; [reflexivity|].
    destruct (of_Z_nonzero b Nb Hb) as (m & e & -> & _). reflexivity.
  - rewrite Z.add_0_r.
    destruct (of_Z_nonzero a Na Ha) as (m & e & -> & _). reflexivity.
  - destruct (of_Z_nonzero a Na Ha) as (ma & ea & -> & Hea & Ema).
    destruct (of_Z_nonzero b Nb Hb) as (mb & eb & -> & Heb & Emb).
    unfold Number.add, Number.prec, Number.emax. cbn [SFadd].
    rewrite (aligned_signed _ _ _ _ a) by (trivial; lia).
    rewrite (aligned_signed _ _ _ _ b) by (trivial; lia).
    rewrite <- Z.mul_add_distr_r.
    rewrite <- (Z.opp_involutive (Z.min ea eb)) at 2.
    apply normalize_scaled; lia.
Qed.

Lemma sub_of_Z (a b : Z) :
  - 2 ^ 53 < a < 2 ^ 53 -> - 2 ^ 53 < b < 2 ^ 53 ->
  - 2 ^ 53 < a - b < 2 ^ 53 ->
  Number.sub (Number.of_Z a) (Number.of_Z b) = Number.of_Z (a - b).
Proof.
  intros Ha Hb H.
  destruct (Z.eq_dec b 0) as [->|Nb]; [|destruct (Z.eq_dec a 0) as [->|Na]].
  - rewrite Z.sub_0_r. destruct (Z.eq_dec a 0) as [->|Na]; [reflexivity|].
    destruct (of_Z_nonzero a Na Ha) as (m & e & -> & _). reflexivity.
  - assert (Nb' : - b <> 0) by lia.
    destruct (of_Z_nonzero b Nb Hb) as (m & e & E & He & Em).
    destruct (of_Z_nonzero (- b) Nb') as (m' & e' & E' & He' & Em'); [lia|].
    cbn [Z.sub Z.add]. rewrite E, E'.
    unfold Number.of_Z, Number.prec, Number.emax in E, E'.
    destruct b as [|p|p]; [contradiction| |];
      cbn [binary_normalize Z.opp] in E, E';
      rewrite binary_round_canonical in E, E' by lia;
      injection E as <- <-; injection E' as <- <-; reflexivity.
  - destruct (of_Z_nonzero a Na Ha) as (ma & ea & -> & Hea & Ema).
    destruct (of_Z_nonzero b Nb Hb) as (mb & eb & -> & Heb & Emb).
    unfold Number.sub, Number.prec, Number.emax. cbn [SFsub].
    rewrite (aligned_signed _ _ _ _ a) by (trivial; lia).
    rewrite (aligned_signed _ _ _ _ b) by (trivial; lia).
    rewrite <- Z.mul_sub_distr_r.
    rewrite <- (Z.opp_involutive (Z.min ea eb)) at 2.
    apply normalize_scaled; lia.
Qed.

(** ** Summaries of whole-number amounts *)

Lemma Zsum_filter_le (w : Transaction -> Z) (p : Transaction -> bool)
    (ts : list Transaction) :
  (forall t, In t ts -> 0 <= w t) ->
  0 <= Zsum (List.map w (filter p ts)) <= Zsum (List.map w ts).
Proof.
  induction ts as [|t ts IH]; intros H; simpl; [lia|].
  assert (0 <= w t) by (apply H; now left).
  assert (Hr : forall u, In u ts -> 0 <= w u) by (intros u Hu; apply H; now right).
  specialize (IH Hr). destruct (p t); simpl; lia.
Qed.

Lemma Zsum_nonneg (w : Transaction -> Z) (ts : list Transaction) :
  (forall t, In t ts -> 0 <= w t) -> 0 <= Zsum (List.map w ts).
Proof.
  induction ts as [|t ts IH]; intros H; simpl; [lia|].
  assert (0 <= w t) by (apply H; now left).
  assert (0 <= Zsum (List.map w ts)) by (apply IH; intros u Hu; apply H; now right).
  lia.
Qed.

Lemma fold_whole (w : Transaction -> Z) (l : list Transaction) (acc : Z) :
  whole_amounts w l -> 0 <= acc -> acc + Zsum (List.map w l) < 2 ^ 53 ->
  fold_left (fun sum t => Number.add sum (amount t)) l (Number.of_Z acc)
  = Number.of_Z (acc + Zsum (List.map w l)).
Proof.
  revert acc; induction l as [|t l IH]; intros acc Hw Hacc Hb.
  - simpl. now rewrite Z.add_0_r.
  - destruct (Hw t (or_introl eq_refl)) as [Ht Et].
    assert (Hw' : whole_amounts w l) by (intros u Hu; apply Hw; now right).
    pose proof (Zsum_nonneg w l (fun u Hu => proj1 (Hw' u Hu))) as Hs.
    assert (E : Zsum (List.map w (t :: l)) = w t + Zsum (List.map w l))
      by reflexivity.
    rewrite E in *. cbn [fold_left].
    rewrite Et, add_of_Z by lia.
    rewrite IH by (trivial; lia). f_equal. lia.
Qed.

Lemma total_whole (w : Transaction -> Z) (p : Transaction -> bool)
    (ts : list Transaction) :
  whole_amounts w ts -> Zsum (List.map w ts) < 2 ^ 53 ->
  fold_left (fun sum t => Number.add sum (amount t)) (filter p ts) Number.zero
  = Number.of_Z (Zsum (List.map w (filter p ts))).
Proof.
  intros Hw Hb.
  pose proof (Zsum_filter_le w p ts (fun u Hu => proj1 (Hw u Hu))).
  change Number.zero with (Number.of_Z 0).
  rewrite (fold_whole w); [reflexivity | | lia | lia].
  intros t Ht. apply filter_In in Ht as [Ht _]. now apply Hw.
Qed.

Lemma Zsum_disjoint_filters (w : Transaction -> Z)
    (ts : list Transaction) :
  (forall t, In t ts -> 0 <= w t) ->
  Zsum (List.map w (filter isIncome ts))
  + Zsum (List.map w (filter isExpense ts)) <= Zsum (List.map w ts).
Proof.
  induction ts as [|t ts IH]; intros H; simpl; [lia|].
  assert (0 <= w t) by (apply H; now left).
  assert (Hr : forall u, In u ts -> 0 <= w u) by (intros u Hu; apply H; now right).
  specialize (IH Hr). unfold isIncome, isExpense in *.
  destruct (optString_eqb (category t) (str "income")) eqn:Ei;
    destruct (optString_eqb (category t) (str "expense")) eqn:Ee; simpl; try lia.
  apply optString_eqb_eq in Ei, Ee. rewrite Ei in Ee. discriminate.
Qed.

Lemma net_whole (w : Transaction -> Z) (ts : list Transaction) :
  whole_amounts w ts -> Zsum (List.map w ts) < 2 ^ 53 ->
  netBalance ts
  = Number.of_Z (Zsum (List.map w (filter isIncome ts))
                 - Zsum (List.map w (filter isExpense ts))).
Proof.
  intros Hw Hb.
  assert (Hn : forall t, In t ts -> 0 <= w t) by (intros t Ht; now apply Hw).
  pose proof (Zsum_filter_le w isIncome ts Hn).
  pose proof (Zsum_filter_le w isExpense ts Hn).
  unfold netBalance, totalIncome, totalExpenses.
  rewrite !(total_whole w) by assumption. apply sub_of_Z; lia.
Qed.

(** X18: when every amount is a whole number and the amounts add up to
    less than [2 ^ 53], the summary is exact: the two totals are the sums
    of the whole numbers of their categories and the net balance is the
    difference of the two sums. *)
Theorem totals_exact (w : Transaction -> Z) (ts : list Transaction) :
  whole_amounts w ts ->
  Zsum (List.map w ts) < 2 ^ 53 ->
  totalIncome ts = Number.of_Z (Zsum (List.map w (filter isIncome ts)))
  /\ totalExpenses ts = Number.of_Z (Zsum (List.map w (filter isExpense ts)))
  /\ netBalance ts
     = Number.of_Z (Zsum (List.map w (filter isIncome ts))
                    - Zsum (List.map w (filter isExpense ts))).
Proof.
  intros Hw Hb. split; [|split].
  - unfold totalIncome. now apply total_whole.
  - unfold totalExpenses. now apply total_whole.
  - now apply net_whole.
Qed.

Lemma totals_exact_witness :
  totalIncome Sample.ledger
  = Number.of_Z (Zsum (List.map Sample.rupees (filter isIncome Sample.ledger))).
Proof.
  apply (totals_exact Sample.rupees Sample.ledger).
  - intros t [<-|[<-|[]]]; split; (discriminate || reflexivity).
  - reflexivity.
Defined.

Lemma whole_amounts_incl (w : Transaction -> Z) (l l' : list Transaction) :
  incl l' l -> whole_amounts w l -> whole_amounts w l'.
Proof. intros Hi H t Ht. now apply H, Hi. Qed.

Lemma Zsum_app (l1 l2 : list Z) : Zsum (l1 ++ l2) = Zsum l1 + Zsum l2.
Proof. induction l1 as [|x l1 IH]; simpl; lia. Qed.

(** X19: when every amount is a whole number and the amounts of [A ++ B]
    add up to less than [2 ^ 53], the summary is additive: each total of
    [A ++ B], and the net balance, is that of [A] plus that of [B]. *)
Theorem summary_additive_whole (w : Transaction -> Z) (A B : list Transaction) :
  whole_amounts w (A ++ B) ->
  Zsum (List.map w (A ++ B)) < 2 ^ 53 ->
  totalIncome (A ++ B) = Number.add (totalIncome A) (totalIncome B)
  /\ totalExpenses (A ++ B) = Number.add (totalExpenses A) (totalExpenses B)
  /\ netBalance (A ++ B) = Number.add (netBalance A) (netBalance B).
Proof.
  intros Hw Hb.
  assert (HwA : whole_amounts w A)
    by (eapply whole_amounts_incl; [apply incl_appl, incl_refl | exact Hw]).
  assert (HwB : whole_amounts w B)
    by (eapply whole_amounts_incl; [apply incl_appr, incl_refl | exact Hw]).
  assert (HnA : forall t, In t A -> 0 <= w t) by (intros t Ht; now apply HwA).
  assert (HnB : forall t, In t B -> 0 <= w t) by (intros t Ht; now apply HwB).
  pose proof (Zsum_filter_le w isIncome A HnA).
  pose proof (Zsum_filter_le w isExpense A HnA).
  pose proof (Zsum_filter_le w isIncome B HnB).
  pose proof (Zsum_filter_le w isExpense B HnB).
  pose proof (Zsum_disjoint_filters w A HnA).
  pose proof (Zsum_disjoint_filters w B HnB).
  assert (Hs : Zsum (List.map w (A ++ B))
               = Zsum (List.map w A) + Zsum (List.map w B))
    by (now rewrite map_app, Zsum_app).
  assert (HbA : Zsum (List.map w A) < 2 ^ 53) by lia.
  assert (HbB : Zsum (List.map w B) < 2 ^ 53) by lia.
  rewrite (net_whole w (A ++ B)), (net_whole w A), (net_whole w B)
    by assumption.
  unfold totalIncome, totalExpenses.
  rewrite !(total_whole w) by assumption.
  rewrite !filter_app, !map_app, !Zsum_app.
  rewrite !add_of_Z by lia.
  repeat split; f_equal; lia.
Qed.

Lemma summary_additive_whole_witness :
  totalIncome ([of_form 1 Sample.salary] ++ [of_form 2 Sample.groceries])
  = Number.add (totalIncome [of_form 1 Sample.salary])
               (totalIncome [of_form 2 Sample.groceries]).
Proof.
  apply (summary_additive_whole Sample.rupees).
  - intros t [<-|[<-|[]]]; split; (discriminate || reflexivity).
  - reflexivity.
Defined.

Lemma Zsum_filter_perm (w : Transaction -> Z) (p : Transaction -> bool)
    (l l' : list Transaction) :
  Permutation l l' ->
  Zsum (List.map w (filter p l)) = Zsum (List.map w (filter p l')).
Proof.
  induction 1 as [|x l l' _ IH|x y l|l l' l'' _ IH1 _ IH2]; simpl.
  - reflexivity.
  - destruct (p x); simpl; lia.
  - destruct (p x), (p y); simpl; lia.
  - lia.
Qed.

Lemma Zsum_map_perm (w : Transaction -> Z) (l l' : list Transaction) :
  Permutation l l' -> Zsum (List.map w l) = Zsum (List.map w l').
Proof.
  induction 1 as [|x l l' _ IH|x y l|l l' l'' _ IH1 _ IH2]; simpl; lia.
Qed.

(** X20: when every amount is a whole number and the amounts add up to
    less than [2 ^ 53], the summary does not depend on the order of the
    records. *)
Theorem summary_order_whole (w : Transaction -> Z) (ts ts' : list Transaction) :
  Permutation ts ts' ->
  whole_amounts w ts ->
  Zsum (List.map w ts) < 2 ^ 53 ->
  totalIncome ts' = totalIncome ts
  /\ totalExpenses ts' = totalExpenses ts
  /\ netBalance ts' = netBalance ts.
Proof.
  intros P Hw Hb.
  assert (Hw' : whole_amounts w ts').
  { intros t Ht. apply Hw. now apply (Permutation_in _ (Permutation_sym P)). }
  assert (Hb' : Zsum (List.map w ts') < 2 ^ 53)
    by (now rewrite <- (Zsum_map_perm w ts ts' P)).
  rewrite (net_whole w ts), (net_whole w ts') by assumption.
  unfold totalIncome, totalExpenses.
  rewrite !(total_whole w) by assumption.
  rewrite (Zsum_filter_perm w isIncome ts ts' P),
    (Zsum_filter_perm w isExpense ts ts' P).
  repeat split.
Qed.

Lemma summary_order_whole_witness :
  totalIncome [of_form 2 Sample.groceries; of_form 1 Sample.salary]
  = totalIncome Sample.ledger.
Proof.
  apply (summary_order_whole Sample.rupees Sample.ledger).
  - apply perm_swap.
  - intros t [<-|[<-|[]]]; split; (discriminate || reflexivity).
  - reflexivity.
Defined.

(** ** Sorting whole-number amounts *)

Lemma amount_asc_orders (w : Transaction -> Z) (l : list Transaction) :
  whole_amounts w l -> (forall t, In t l -> w t < 2 ^ 53) ->
  orders_by (compareFn (str "amount-asc")) w l.
Proof.
  intros Hw Hb a b Ha Hb'.
  destruct (Hw a Ha) as [Ha0 Ea]. destruct (Hw b Hb') as [Hb0 Eb].
  pose proof (Hb a Ha). pose proof (Hb b Hb').
  unfold SortCompare.
  change (compareFn (str "amount-asc") a b)
    with (Number.sub (amount a) (amount b)).
  rewrite Ea, Eb, sub_of_Z by lia.
  destruct (of_Z_sign (w a - w b)) as [Hn Hs]; [lia|].
  rewrite Hn, Hs.
  destruct (Z.ltb_spec 0 (w a - w b)), (Z.ltb_spec (w b) (w a)); lia || reflexivity.
Qed.

Lemma amount_desc_orders (w : Transaction -> Z) (l : list Transaction) :
  whole_amounts w l -> (forall t, In t l -> w t < 2 ^ 53) ->
  orders_by (compareFn (str "amount-desc")) (fun t => - w t) l.
Proof.
  intros Hw Hb a b Ha Hb'.
  destruct (Hw a Ha) as [Ha0 Ea]. destruct (Hw b Hb') as [Hb0 Eb].
  pose proof (Hb a Ha). pose proof (Hb b Hb').
  unfold SortCompare.
  change (compareFn (str "amount-desc") a b)
    with (Number.sub (amount b) (amount a)).
  rewrite Ea, Eb, sub_of_Z by lia.
  destruct (of_Z_sign (w b - w a)) as [Hn Hs]; [lia|].
  rewrite Hn, Hs.
  destruct (Z.ltb_spec 0 (w b - w a)), (Z.ltb_spec (- w b) (- w a));
    lia || reflexivity.
Qed.

(** X21: when every amount is a whole number below [2 ^ 53], the option
    [amount-asc] shows the rows from the smallest amount to the largest
    and [amount-desc] from the largest to the smallest; in both, rows of
    one and the same amount keep the order that they have in the
    collection. *)
Theorem sorted_by_amount (w : Transaction -> Z) (ts : list Transaction)
    (categoryFilter dateFilter : jsstring) :
  whole_amounts w ts ->
  (forall t, In t ts -> w t < 2 ^ 53) ->
  StronglySorted (fun a b => w a <= w b)
    (filteredAndSorted ts categoryFilter dateFilter (str "amount-asc"))
  /\ StronglySorted (fun a b => w b <= w a)
       (filteredAndSorted ts categoryFilter dateFilter (str "amount-desc"))
  /\ forall k,
       filter (fun t => w t =? k)
         (filteredAndSorted ts categoryFilter dateFilter (str "amount-asc"))
       = filter (fun t => w t =? k)
           (filteredAndSorted ts categoryFilter dateFilter [])
       /\ filter (fun t => w t =? k)
            (filteredAndSorted ts categoryFilter dateFilter (str "amount-desc"))
          = filter (fun t => w t =? k)
              (filteredAndSorted ts categoryFilter dateFilter []).
Proof.
  intros Hw Hb.
  pose proof (unsorted_projection_incl ts categoryFilter dateFilter) as Hi.
  assert (Hw' : whole_amounts w
                  (filteredAndSorted ts categoryFilter dateFilter []))
    by (eapply whole_amounts_incl; eassumption).
  assert (Hb' : forall t,
            In t (filteredAndSorted ts categoryFilter dateFilter []) ->
            w t < 2 ^ 53) by (intros t Ht; now apply Hb, Hi).
  rewrite (projection_sorts ts _ _ (str "amount-asc")),
    (projection_sorts ts _ _ (str "amount-desc")).
  split; [|split].
  - apply sort_sorted with (key := w). now apply amount_asc_orders.
  - apply StronglySorted_impl with (R := fun a b => - w a <= - w b);
      [intros a b; lia|].
    apply sort_sorted with (key := fun t => - w t).
    now apply amount_desc_orders.
  - intros k. split.
    + apply sort_stable with (key := w). now apply amount_asc_orders.
    + rewrite (filter_ext (fun t => w t =? k) (fun t => - w t =? - k)).
      2:{ intros t. destruct (Z.eqb_spec (w t) k),
            (Z.eqb_spec (- w t) (- k)); lia || reflexivity. }
      rewrite (filter_ext (fun t => w t =? k) (fun t => - w t =? - k)).
      2:{ intros t. destruct (Z.eqb_spec (w t) k),
            (Z.eqb_spec (- w t) (- k)); lia || reflexivity. }
      apply sort_stable with (key := fun t => - w t).
      now apply amount_desc_orders.
Qed.

Lemma sorted_by_amount_witness :
  StronglySorted (fun a b => Sample.rupees a <= Sample.rupees b)
    (filteredAndSorted Sample.ledger (str "all") [] (str "amount-asc")).
Proof.
  apply (sorted_by_amount Sample.rupees Sample.ledger (str "all") []).
  - intros t [<-|[<-|[]]]; split; (discriminate || reflexivity).
  - intros t [<-|[<-|[]]]; reflexivity.
Defined.

(** ** The date check and the time zone *)

Lemma MakeDate_whole_day (y m d v : Z) :
  JsDate.MakeDate y m d = Some v -> v = v / JsDate.msPerDay * JsDate.msPerDay.
Proof.
  unfold JsDate.MakeDate.
  destruct ((1 <=? m) && (m <=? 12) && (1 <=? d)
            && (d <=? JsDate.DaysInMonth y m)); [|discriminate].
  intros H. injection H as <-.
  now rewrite Z.div_mul by (unfold JsDate.msPerDay; lia).
Qed.

Lemma parse_whole_day (s : jsstring) (v : Z) :
  JsDate.parse s = Some v -> v = v / JsDate.msPerDay * JsDate.msPerDay.
Proof.
  unfold JsDate.parse.
  destruct (JsDate.digits 4 0 s) as [[y r1]|]; [|discriminate].
  destruct r1 as [|c1 r1]; [apply MakeDate_whole_day|].
  destruct (JsDate.hyphen_field (c1 :: r1)) as [[m r2]|]; [|discriminate].
  destruct r2 as [|c2 r2]; [apply MakeDate_whole_day|].
  destruct (JsDate.hyphen_field (c2 :: r2)) as [[d r3]|]; [|discriminate].
  destruct r3; [apply MakeDate_whole_day | discriminate].
Qed.

(** X22: the date check compares the date, read as midnight UTC, with
    the local midnight.  Where local time is ahead of UTC, by less than a
    day, it refuses the current local day and every later one; where local
    time is UTC or behind it, it refuses the later days only. *)
Theorem date_check_by_zone (offset now : Z) (formData : FormData) (v : Z) :
  fd_date formData <> [] ->
  JsDate.parse (fd_date formData) = Some v ->
  (0 < offset < JsDate.msPerDay ->
   (date_rejected (local_midnight offset now) formData = true
    <-> local_day offset now <= v / JsDate.msPerDay))
  /\ (- JsDate.msPerDay < offset <= 0 ->
      (date_rejected (local_midnight offset now) formData = true
       <-> local_day offset now < v / JsDate.msPerDay)).
Proof.
  intros Hne Hp. pose proof (parse_whole_day _ _ Hp) as Hv.
  assert (Ht : JsString.truthy (fd_date formData) = true)
    by (destruct (fd_date formData); [contradiction | reflexivity]).
  unfold date_rejected, local_midnight, local_day.
  rewrite Ht, Hp. cbn [negb orb JsDate.gtb].
  set (L := (now + offset) / JsDate.msPerDay) in *.
  set (D := v / JsDate.msPerDay) in *.
  rewrite Z.ltb_lt. unfold JsDate.msPerDay in *.
  split; intros Ho; split; intros H; lia.
Qed.

Lemma date_check_by_zone_witness :
  date_rejected (local_midnight Sample.ist Sample.noon_jan_1_2024)
    Sample.new_year = true
  <-> local_day Sample.ist Sample.noon_jan_1_2024
      <= Sample.jan_1_2024 / JsDate.msPerDay.
Proof.
  apply (date_check_by_zone Sample.ist Sample.noon_jan_1_2024 Sample.new_year
           Sample.jan_1_2024).
  - discriminate.
  - reflexivity.
  - split; reflexivity.
Defined.

(** ** A session *)

Lemma loadInitialData_counter_low (r : getItem_result) :
  match r with
  | Resolved (Some stored) =>
      forall x, In x stored ->
                - Number.exact_limit <= st_id x < Number.exact_limit
  | _ => True
  end ->
  - Number.exact_limit <= nextId (fst (loadInitialData r initial)).
Proof.
  destruct r as [|[stored|]]; try discriminate. intros Hsafe.
  cbn [loadInitialData fst nextId].
  destruct (List.map rehydrate stored) as [|t ts] eqn:E; [discriminate|].
  assert (Hm : In (Math_max (List.map id (t :: ts))) (List.map id (t :: ts)))
    by (apply Math_max_In; discriminate).
  rewrite <- E, map_map in Hm |- *.
  apply in_map_iff in Hm as (y & Ey & Hy).
  apply Hsafe in Hy. change (id (rehydrate y)) with (st_id y) in Ey.
  rewrite <- Ey, succ_safe by exact Hy. lia.
Qed.

(** X23: a page that loads records with unique identifiers in the safe
    range, or loads nothing, and then runs any operations is well formed
    at the end, as long as the counter stays in the safe range; the
    counter has then risen by the number of adds. *)
Theorem session_well_formed (r : getItem_result) (ops : list op) :
  match r with
  | Resolved (Some stored) =>
      NoDup (List.map st_id stored)
      /\ forall x, In x stored ->
                   - Number.exact_limit <= st_id x < Number.exact_limit
  | _ => True
  end ->
  nextId (fst (loadInitialData r initial)) + adds ops <= Number.exact_limit ->
  well_formed (run ops (fst (loadInitialData r initial)))
  /\ nextId (run ops (fst (loadInitialData r initial)))
     = nextId (fst (loadInitialData r initial)) + adds ops.
Proof.
  intros Hr Hb.
  assert (Hlo : - Number.exact_limit
                <= nextId (fst (loadInitialData r initial))).
  { apply loadInitialData_counter_low. destruct r as [|[stored|]]; tauto. }
  assert (Hwf : well_formed (fst (loadInitialData r initial))).
  { destruct r as [|[stored|]].
    - split; [constructor | intros i []].
    - destruct Hr as [Hnd Hsafe].
      destruct (loadInitialData_counter stored initial Hsafe) as [E Hc].
      split; [now rewrite E | exact Hc].
    - split; [constructor | intros i []]. }
  split; [now apply well_formed_run | now apply nextId_run].
Qed.

Lemma session_well_formed_witness :
  well_formed
    (run Sample.session
       (fst (loadInitialData (Resolved (Some Sample.stored_ledger)) initial)))
  /\ nextId
       (run Sample.session
          (fst (loadInitialData (Resolved (Some Sample.stored_ledger)) initial)))
     = nextId (fst (loadInitialData (Resolved (Some Sample.stored_ledger))
                      initial))
       + adds Sample.session.
Proof.
  apply (session_well_formed (Resolved (Some Sample.stored_ledger))).
  - split.
    + repeat constructor; simpl; intuition discriminate.
    + intros r [<-|[<-|[]]]; (split; [discriminate | reflexivity]).
  - discriminate.
Defined.

(** ** What is saved *)

(** X24: an add, an update, a delete, a submit and a click either change
    nothing and ask for nothing, or ask for a save of the collection as
    they leave it, and then for the table and the summary to be drawn
    again.  The load is the exception: it asks for the table and the
    summary to be drawn and never for a save, also when it replaces the
    collection by the records of the storage. *)
Theorem mutations_are_saved (s : MoneyManager) :
  (forall o, persisted s (perform o s))
  /\ (forall today formData, persisted s (submit today formData s))
  /\ (forall confirmed tg, persisted s (click confirmed tg s))
  /\ (forall r, snd (loadInitialData r s) = [renderTransactions; updateSummary])
  /\ (forall stored,
        transactions (fst (loadInitialData (Resolved (Some stored)) s))
        = List.map rehydrate stored).
Proof.
  assert (Hop : forall o, persisted s (perform o s)).
  { intros [f|i f|c i]; unfold persisted; cbn [perform].
    - right. reflexivity.
    - unfold updateTransaction.
      destruct (findIndex i (transactions s)); [right | left]; reflexivity.
    - unfold deleteTransaction. destruct c; [right | left]; reflexivity. }
  split; [exact Hop|]. split; [|split; [|split]].
  - intros today f. unfold submit.
    destruct (fst (validateForm today f)); [|now left].
    destruct (JsString.truthy (fd_id f)); [|exact (Hop (Add f))].
    destruct (parseInt (fd_id f)) as [i|]; [exact (Hop (Update i f)) | now left].
  - intros c tg. unfold click. destruct tg as [d|d|]; try now left.
    destruct (parseInt d) as [i|]; [exact (Hop (Delete c i))|].
    destruct c; [right | left]; reflexivity.
  - intros r. reflexivity.
  - intros stored. reflexivity.
Qed.

(** A load that replaces the collection is not saved: on a new store the
    sample ledger comes in, and no save is asked for. *)
Lemma load_is_not_saved :
  transactions
    (fst (loadInitialData (Resolved (Some Sample.stored_ledger)) initial))
  = Sample.ledger
  /\ ~ persisted initial
        (loadInitialData (Resolved (Some Sample.stored_ledger)) initial).
Proof.
  split; [vm_compute; reflexivity|].
  intros [H|H]; [|discriminate H].
  apply (f_equal (fun r => List.length (transactions (fst r)))) in H.
  discriminate H.
Qed.

(** ** The summary against the sums of the specification *)

(** The test of the two filters of the summary is the equality of the
    category with the literal. *)
Lemma in_category_eqb (c : jsstring) (t : Transaction) :
  in_category c t = optString_eqb (category t) c.
Proof.
  unfold in_category. destruct (category_dec t c) as [E|NE].
  - symmetry. now apply optString_eqb_eq.
  - destruct (optString_eqb (category t) c) eqn:E; [|reflexivity].
    apply optString_eqb_eq in E. contradiction.
Qed.

Lemma category_sum_income (w : Transaction -> Z) (ts : list Transaction) :
  category_sum w (str "income") ts = Zsum (List.map w (filter isIncome ts)).
Proof.
  unfold category_sum. f_equal. f_equal. apply filter_ext.
  intros t. apply in_category_eqb.
Qed.

Lemma category_sum_expense (w : Transaction -> Z) (ts : list Transaction) :
  category_sum w (str "expense") ts = Zsum (List.map w (filter isExpense ts)).
Proof.
  unfold category_sum. f_equal. f_equal. apply filter_ext.
  intros t. apply in_category_eqb.
Qed.

(** The addition of the summary is the binary64 addition. *)
Lemma binary64_sum_fold (c : jsstring) (acc : number) (ts : list Transaction) :
  binary64_sum c acc ts = sum_amounts c acc ts.
Proof.
  revert acc; induction ts as [|t ts IH]; intros acc; [reflexivity|].
  cbn [binary64_sum sum_amounts]. apply IH.
Qed.

(** The Number of a whole number below [2 ^ 53] in absolute value is
    that whole number. *)
Lemma integer_value_of_Z (z : Z) :
  - 2 ^ 53 < z < 2 ^ 53 -> integer_value (Number.of_Z z) = Some z.
Proof.
  intros H. destruct (Z.eq_dec z 0) as [->|Hz]; [reflexivity|].
  destruct (of_Z_nonzero z Hz H) as (m & e & -> & He & Em).
  unfold integer_value.
  assert (Hp : 0 < 2 ^ (- e)) by (apply Z.pow_pos_nonneg; lia).
  assert (Ea : Zpos m = Z.abs z * 2 ^ (- e)).
  { destruct (z <? 0) eqn:S; cbn [cond_Zopp] in Em.
    - apply Z.ltb_lt in S. rewrite Z.abs_neq by lia. lia.
    - apply Z.ltb_ge in S. rewrite Z.abs_eq by lia. lia. }
  destruct (0 <=? e) eqn:E0.
  - apply Z.leb_le in E0. assert (e = 0) by lia. subst e.
    change (2 ^ (- 0)) with 1 in *. change (2 ^ 0) with 1.
    f_equal. rewrite Z.mul_1_r in *. rewrite Em. lia.
  - rewrite Ea, Z.mod_mul by lia. cbn [Z.eqb].
    rewrite Z.div_mul by lia. f_equal.
    destruct (z <? 0) eqn:S; cbn [cond_Zopp].
    + apply Z.ltb_lt in S. lia.
    + apply Z.ltb_ge in S. lia.
Qed.

(** The summary of whole-number amounts that add up to less than
    [2 ^ 53] is the two sums of the integers and their difference. *)
Lemma summary_whole (w : Transaction -> Z) (ts : list Transaction) :
  whole_amounts w ts ->
  Zsum (List.map w ts) < 2 ^ 53 ->
  summary_is ts (category_sum w (str "income") ts)
                (category_sum w (str "expense") ts).
Proof.
  intros Hw Hb.
  assert (Hn : forall t, In t ts -> 0 <= w t) by (intros t Ht; now apply Hw).
  pose proof (Zsum_filter_le w isIncome ts Hn).
  pose proof (Zsum_filter_le w isExpense ts Hn).
  rewrite category_sum_income, category_sum_expense.
  unfold summary_is. rewrite (net_whole w ts) by assumption.
  unfold totalIncome, totalExpenses. rewrite !(total_whole w) by assumption.
  repeat split; apply integer_value_of_Z; lia.
Qed.

(** C4: for every collection, [totalIncome] is the sum of the amounts of
    the records of category income and [totalExpenses] that of the
    records of category expense, each added up from 0 in the order of the
    collection, and [netBalance] is the first minus the second, where sum
    and difference are those of JavaScript Numbers, the binary64 addition
    and subtraction of IEEE 754.  Where the amounts are whole numbers,
    none below 0, that add up to less than [2 ^ 53], these are the sums
    and the difference of the integers: the two totals are the integer
    sums over the records of each category, and the net balance is the
    integer difference.  On the empty collection the three are 0. *)
Theorem summary_totals (ts : list Transaction) :
  (totalIncome ts = binary64_sum (str "income") (S754_zero false) ts
   /\ totalExpenses ts = binary64_sum (str "expense") (S754_zero false) ts
   /\ netBalance ts = SFsub 53 1024 (totalIncome ts) (totalExpenses ts))
  /\ (forall w : Transaction -> Z,
        whole_amounts w ts ->
        Zsum (List.map w ts) < 2 ^ 53 ->
        integer_value (totalIncome ts)
        = Some (category_sum w (str "income") ts)
        /\ integer_value (totalExpenses ts)
           = Some (category_sum w (str "expense") ts)
        /\ integer_value (netBalance ts)
           = Some (category_sum w (str "income") ts
                   - category_sum w (str "expense") ts))
  /\ (totalIncome [] = S754_zero false
      /\ totalExpenses [] = S754_zero false
      /\ netBalance [] = S754_zero false).
Proof.
  split; [|split].
  - split; [|split].
    + rewrite binary64_sum_fold. apply fold_filter_sum.
    + rewrite binary64_sum_fold. apply fold_filter_sum.
    + reflexivity.
  - intros w Hw Hb. exact (summary_whole w ts Hw Hb).
  - repeat split.
Qed.

Lemma summary_totals_witness :
  integer_value (totalIncome Sample.ledger) = Some 1000
  /\ integer_value (totalExpenses Sample.ledger) = Some 200
  /\ integer_value (netBalance Sample.ledger) = Some 800.
Proof.
  destruct (summary_totals Sample.ledger) as (_ & H & _).
  apply (H Sample.rupees).
  - intros t [<-|[<-|[]]]; split; (discriminate || reflexivity).
  - reflexivity.
Defined.

(** C5, where the sums are exact: when the amounts of [A ++ B] are whole
    numbers, none below 0, that add up to less than [2 ^ 53], each total
    of [A ++ B], and the net balance, is that of [A] plus that of [B], as
    Numbers and as integers: the income, the expense and the net balance
    of [A ++ B] are the sums of the incomes, the expenses and the net
    balances of [A] and of [B]. *)
Theorem summary_additive_exact (w : Transaction -> Z) (A B : list Transaction) :
  whole_amounts w (A ++ B) ->
  Zsum (List.map w (A ++ B)) < 2 ^ 53 ->
  (totalIncome (A ++ B) = Number.add (totalIncome A) (totalIncome B)
   /\ totalExpenses (A ++ B) = Number.add (totalExpenses A) (totalExpenses B)
   /\ netBalance (A ++ B) = Number.add (netBalance A) (netBalance B))
  /\ summary_is A (category_sum w (str "income") A)
                  (category_sum w (str "expense") A)
  /\ summary_is B (category_sum w (str "income") B)
                  (category_sum w (str "expense") B)
  /\ summary_is (A ++ B)
       (category_sum w (str "income") A + category_sum w (str "income") B)
       (category_sum w (str "expense") A + category_sum w (str "expense") B).
Proof.
  intros Hw Hb.
  assert (HwA : whole_amounts w A)
    by (eapply whole_amounts_incl; [apply incl_appl, incl_refl | exact Hw]).
  assert (HwB : whole_amounts w B)
    by (eapply whole_amounts_incl; [apply incl_appr, incl_refl | exact Hw]).
  assert (HnA : forall t, In t A -> 0 <= w t) by (intros t Ht; now apply HwA).
  assert (HnB : forall t, In t B -> 0 <= w t) by (intros t Ht; now apply HwB).
  pose proof (Zsum_filter_le w isIncome A HnA).
  pose proof (Zsum_filter_le w isExpense A HnA).
  pose proof (Zsum_filter_le w isIncome B HnB).
  pose proof (Zsum_filter_le w isExpense B HnB).
  pose proof (Zsum_disjoint_filters w A HnA).
  pose proof (Zsum_disjoint_filters w B HnB).
  assert (Hs : Zsum (List.map w (A ++ B))
               = Zsum (List.map w A) + Zsum (List.map w B))
    by (now rewrite map_app, Zsum_app).
  assert (HbA : Zsum (List.map w A) < 2 ^ 53) by lia.
  assert (HbB : Zsum (List.map w B) < 2 ^ 53) by lia.
  split; [|split; [|split]].
  - rewrite (net_whole w (A ++ B)), (net_whole w A), (net_whole w B)
      by assumption.
    unfold totalIncome, totalExpenses.
    rewrite !(total_whole w) by assumption.
    rewrite !filter_app, !map_app, !Zsum_app.
    rewrite !add_of_Z by lia.
    repeat split; f_equal; lia.
  - now apply summary_whole.
  - now apply summary_whole.
  - pose proof (summary_whole w (A ++ B) Hw Hb) as H5.
    unfold category_sum in *.
    rewrite !filter_app, !map_app, !Zsum_app in H5. exact H5.
Qed.

Lemma summary_additive_exact_witness :
  totalIncome ([of_form 1 Sample.salary] ++ [of_form 2 Sample.groceries])
  = Number.add (totalIncome [of_form 1 Sample.salary])
               (totalIncome [of_form 2 Sample.groceries])
  /\ summary_is ([of_form 1 Sample.salary] ++ [of_form 2 Sample.groceries])
       (1000 + 0) (0 + 200).
Proof.
  assert (Hw : whole_amounts Sample.rupees
                 ([of_form 1 Sample.salary] ++ [of_form 2 Sample.groceries])).
  { intros t [<-|[<-|[]]]; split; (discriminate || reflexivity). }
  assert (Hb : Zsum (List.map Sample.rupees
                       ([of_form 1 Sample.salary]
                        ++ [of_form 2 Sample.groceries])) < 2 ^ 53)
    by reflexivity.
  destruct (summary_additive_exact Sample.rupees _ _ Hw Hb)
    as (H1 & _ & _ & H4).
  split; [exact (proj1 H1) | exact H4].
Defined.
